(** * TriBle search core: sentence index and keyword search (app.py)

    A shallow embedding of the indexing and search functions of [app.py]
    ([extract_sentences], [preprocess_pdf], [save_index_to_file],
    [load_index_from_file], [search_keywords_in_index],
    [search_keywords_in_pdf], [initialize_index]) and of its forum
    ([load_forum_data], [save_forum_data], [submit_problem]), together with
    the fragments of the Python library they call ([str.lower], [in] on
    strings, [re.split], [re.escape], [re.sub], [list.sort], [json.dump],
    [json.load]).

    Conventions.
    - A Python [str] is a [list ascii]; the character [ascii_of_nat n] stands
      for the code point [n], so the model covers text over the code points
      0..255, with Python's case mapping and character classes on that
      range.
    - Page numbers are [Z] (Python integers).
    - A function that can raise returns an [option]; [None] is the raised
      exception.
    - Printed messages and the progress bar are left out: they do not reach
      the caller. *)

From Stdlib Require Import String Ascii ZArith Lia Bool Arith List.
From Stdlib Require Import Permutation Sorted.
From Stdlib Require Import Floats.
From Stdlib Require Decimal DecimalFacts DecimalN DecimalPos.
Import ListNotations.

Local Open Scope list_scope.
Local Open Scope char_scope.

(** ** Python strings *)

Module PyStr.

Definition str := list ascii.

(** String literals of the source. *)
Definition py (s : string) : str := list_ascii_of_string s.

Definition code (c : ascii) : nat := nat_of_ascii c.

Definition between (lo hi : nat) (c : ascii) : bool :=
  (lo <=? code c)%nat && (code c <=? hi)%nat.

(** [str.lower] on one code point below 256: A-Z, and the Latin-1 capitals
    U+00C0..U+00DE without the multiplication sign U+00D7. *)
Definition lower_char (c : ascii) : ascii :=
  if between 65 90 c || between 192 214 c || between 216 222 c
  then ascii_of_nat (code c + 32)
  else c.

(** [s.lower()] *)
Definition lower (s : str) : str := map lower_char s.

(** [s.startswith(p)] *)
Fixpoint startswith (p s : str) : bool :=
  match p, s with
  | [], _ => true
  | _ :: _, [] => false
  | a :: p', b :: s' => Ascii.eqb a b && startswith p' s'
  end.

(** [sub in s]: [sub] occurs in [s] as a contiguous slice. *)
Fixpoint contains (sub s : str) : bool :=
  startswith sub s ||
  match s with
  | [] => false
  | _ :: s' => contains sub s'
  end.

(** [str.isspace] on one code point, which is also the class [\s] of [re]
    for [str] patterns. *)
Definition isspace (c : ascii) : bool :=
  between 9 13 c || between 28 32 c || (code c =? 133)%nat || (code c =? 160)%nat.

(** The class [\w] of [re] for [str] patterns: [str.isalnum] or the
    underscore. *)
Definition isword (c : ascii) : bool :=
  between 48 57 c || between 65 90 c || (code c =? 95)%nat || between 97 122 c
  || (code c =? 170)%nat || between 178 179 c || (code c =? 181)%nat
  || between 185 186 c || between 188 190 c
  || between 192 214 c || between 216 246 c || between 248 255 c.

(** ASCII letters and digits, the characters after which a backslash in a
    pattern is not a plain escape. *)
Definition is_ascii_alnum (c : ascii) : bool :=
  between 48 57 c || between 65 90 c || between 97 122 c.

End PyStr.
Import PyStr.

(** ** The fragment of the [re] module used by the application *)

Module Re.

(** *** [re.split] with the sentence-boundary pattern

    The pattern of [extract_sentences] is
    [(?<!\w\.\w.)(?<![A-Z][a-z]\.)(?<=\.|\?)\s]: one whitespace character,
    with three look-behind assertions on the text before it.  [behind] is
    the text before the current position, nearest character first. *)

(** [(?<!\w\.\w.)] fails, that is, the four characters before the position
    read word, dot, word, any character but a newline. *)
Definition behind_abbreviation (behind : str) : bool :=
  match behind with
  | d :: c :: b :: a :: _ =>
      isword a && Ascii.eqb b "." && isword c && negb (Ascii.eqb d "010")
  | _ => false
  end.

(** [(?<![A-Z][a-z]\.)] fails: capital, small letter, dot. *)
Definition behind_title (behind : str) : bool :=
  match behind with
  | c :: b :: a :: _ => between 65 90 a && between 97 122 b && Ascii.eqb c "."
  | _ => false
  end.

(** [(?<=\.|\?)] holds. *)
Definition behind_terminal (behind : str) : bool :=
  match behind with
  | c :: _ => Ascii.eqb c "." || Ascii.eqb c "?"
  | [] => false
  end.

(** The whole pattern matches the single character [c] at the position
    whose left context is [behind]. *)
Definition boundary (behind : str) (c : ascii) : bool :=
  negb (behind_abbreviation behind) && negb (behind_title behind)
  && behind_terminal behind && isspace c.

(** The scan of [re.split]: [piece] is the reversed text since the last
    match; every match closes a piece, and the text after the last match is
    the last piece. *)
Fixpoint split_scan (behind piece : str) (rest : str) : list str :=
  match rest with
  | [] => [rev piece]
  | c :: rest' =>
      if boundary behind c
      then rev piece :: split_scan (c :: behind) [] rest'
      else split_scan (c :: behind) (c :: piece) rest'
  end.

Definition split_sentences (text : str) : list str := split_scan [] [] text.

(** *** [re.escape]

    Every character of [_special_chars_map] gets a backslash. *)
Definition special_chars : str :=
  py "()[]{}?*+-|^$\.&~# " ++ ["009"; "010"; "013"; "011"; "012"].

Definition is_special (c : ascii) : bool := existsb (Ascii.eqb c) special_chars.

Definition escape (pattern : str) : str :=
  flat_map (fun c => if is_special c then ["\"; c] else [c]) pattern.

(** *** Patterns

    The parser covers the patterns the application builds: an optional
    inline flag [(?i)] and one capturing group of single-character atoms.
    Any other construct makes [compile] answer [None]. *)
Inductive atom :=
| Lit (c : ascii)   (* a literal character, plain or escaped *)
| Dot.              (* [.]: any character but a newline *)

Record regex := { ignorecase : bool; group1 : list atom }.

(** The characters with a meaning in the pattern syntax. *)
Definition is_meta (c : ascii) : bool := existsb (Ascii.eqb c) (py ".^$*+?{}[]\|()").

(** The body of the group up to its closing parenthesis, which must end the
    pattern.  A backslash before a character that is no ASCII letter or
    digit makes that character a literal. *)
Fixpoint parse_group (p : str) : option (list atom) :=
  match p with
  | [] => None
  | [")"] => Some []
  | "\" :: c :: p' =>
      if is_ascii_alnum c then None
      else option_map (cons (Lit c)) (parse_group p')
  | "." :: p' => option_map (cons Dot) (parse_group p')
  | c :: p' =>
      if is_meta c then None
      else option_map (cons (Lit c)) (parse_group p')
  end.

(** [re.compile(pattern, flags)], [flag_i] being [re.IGNORECASE]. *)
Definition compile (pattern : str) (flag_i : bool) : option regex :=
  match pattern with
  | "(" :: "?" :: "i" :: ")" :: "(" :: p =>
      option_map (fun atoms => {| ignorecase := true; group1 := atoms |}) (parse_group p)
  | "(" :: p =>
      option_map (fun atoms => {| ignorecase := flag_i; group1 := atoms |}) (parse_group p)
  | _ => None
  end.

Definition atom_matches (icase : bool) (a : atom) (c : ascii) : bool :=
  match a with
  | Lit l => if icase then Ascii.eqb (lower_char l) (lower_char c) else Ascii.eqb l c
  | Dot => negb (Ascii.eqb c "010")
  end.

(** A match of the atoms at the head of [s]: the matched text, which is the
    text of group 1, and the text after it. *)
Fixpoint match_here (icase : bool) (atoms : list atom) (s : str) : option (str * str) :=
  match atoms, s with
  | [], _ => Some ([], s)
  | _ :: _, [] => None
  | a :: atoms', c :: s' =>
      if atom_matches icase a c
      then match match_here icase atoms' s' with
           | Some (m, rest) => Some (c :: m, rest)
           | None => None
           end
      else None
  end.

(** *** Replacement templates: literal characters and [\1]. *)
Inductive template_item := TLit (c : ascii) | TGroup1.

Definition is_digit (c : ascii) : bool := between 48 57 c.

Fixpoint parse_template (t : str) : option (list template_item) :=
  match t with
  | [] => Some []
  | "\" :: "1" :: t' =>
      match t' with
      | d :: _ => if is_digit d then None
                  else option_map (cons TGroup1) (parse_template t')
      | [] => Some [TGroup1]
      end
  | "\" :: _ => None
  | c :: t' => option_map (cons (TLit c)) (parse_template t')
  end.

Definition expand (tpl : list template_item) (g1 : str) : str :=
  flat_map (fun i => match i with TLit c => [c] | TGroup1 => g1 end) tpl.

(** *** [re.sub]

    As in the C implementation, the result is the join of a list of pieces:
    slices of the subject outside the matches and one expanded template per
    match. *)
Inductive piece :=
| Slice (c : ascii)   (* one character of the subject outside every match *)
| Found (m : str).    (* a match, with the text it matched *)

Definition is_nil (s : str) : bool := match s with [] => true | _ :: _ => false end.

(** The search loop.  With a match at the current position the loop emits
    it and goes on after it; without one it copies a character and searches
    from the next position.  [must_advance] is set after an empty match: an
    empty match at the very same position is then refused.  [fuel] bounds
    the number of iterations; [None] means it ran out. *)
Fixpoint sub_pieces (fuel : nat) (rx : regex) (must_advance : bool) (s : str)
  : option (list piece) :=
  match fuel with
  | O => None
  | S fuel' =>
      let copy :=
        match s with
        | [] => Some []
        | c :: s' => option_map (cons (Slice c)) (sub_pieces fuel' rx false s')
        end in
      match match_here (ignorecase rx) (group1 rx) s with
      | Some (m, rest) =>
          if must_advance && is_nil m then copy
          else option_map (cons (Found m)) (sub_pieces fuel' rx (is_nil m) rest)
      | None => copy
      end
  end.

(** The string a piece stands for in the result. *)
Definition render (tpl : list template_item) (p : piece) : str :=
  match p with
  | Slice c => [c]
  | Found m => expand tpl m
  end.

(** The text of the subject a piece covers. *)
Definition covered (p : piece) : str :=
  match p with
  | Slice c => [c]
  | Found m => m
  end.

(** Two iterations per character and two at the end are enough. *)
Definition sub_fuel (s : str) : nat := 2 * length s + 2.

(** [re.sub(pattern, repl, string, flags)]; [None] stands for [re.error]
    (the loop itself never runs out of fuel, see [sub_pieces_total]). *)
Definition sub (pattern repl s : str) (flag_i : bool) : option str :=
  match compile pattern flag_i, parse_template repl with
  | Some rx, Some tpl =>
      option_map (flat_map (render tpl)) (sub_pieces (sub_fuel s) rx false s)
  | _, _ => None
  end.

End Re.

(** ** The fragment of the [json] module used by the application *)

Module Json.

#[local] Set Warnings "-register-all".

(** The Python values [json.dump] writes and [json.load] builds.  A [dict]
    is the list of its items in insertion order; [json.load] keeps, for a
    key met twice, the last value, which is what [dict_get] looks up.
    Floats are left out: the application stores none. *)
Inductive value :=
| Null
| Bool (b : bool)
| Int (z : Z)
| Str (s : str)
| Array (items : list value)
| Object (members : list (str * value)).

Fixpoint str_eqb (a b : str) : bool :=
  match a, b with
  | [], [] => true
  | x :: a', y :: b' => Ascii.eqb x y && str_eqb a' b'
  | _, _ => false
  end.

Fixpoint dict_get (key : str) (members : list (str * value)) : option value :=
  match members with
  | [] => None
  | (k, v) :: rest =>
      match dict_get key rest with
      | Some later => Some later
      | None => if str_eqb k key then Some v else None
      end
  end.

(** *** The encoder ([json.dump] with its default settings:
    [ensure_ascii=True], separators [", "] and [": "]) *)

Definition hex_digit (n : nat) : ascii := nth n (py "0123456789abcdef") "0".

(** [ESCAPE_ASCII]: the quote, the backslash and everything outside
    [' '..'~'] are escaped. *)
Definition escape_char (c : ascii) : str :=
  if Ascii.eqb c "034" then ["\"; "034"]
  else if Ascii.eqb c "\" then ["\"; "\"]
  else if Ascii.eqb c "010" then ["\"; "n"]
  else if Ascii.eqb c "013" then ["\"; "r"]
  else if Ascii.eqb c "009" then ["\"; "t"]
  else if Ascii.eqb c "008" then ["\"; "b"]
  else if Ascii.eqb c "012" then ["\"; "f"]
  else if between 32 126 c then [c]
  else ["\"; "u"; "0"; "0"; hex_digit (code c / 16); hex_digit (code c mod 16)].

Definition encode_string (s : str) : str :=
  "034" :: flat_map escape_char s ++ ["034"].

Fixpoint digits (u : Decimal.uint) : str :=
  match u with
  | Decimal.Nil => []
  | Decimal.D0 u' => "0" :: digits u'
  | Decimal.D1 u' => "1" :: digits u'
  | Decimal.D2 u' => "2" :: digits u'
  | Decimal.D3 u' => "3" :: digits u'
  | Decimal.D4 u' => "4" :: digits u'
  | Decimal.D5 u' => "5" :: digits u'
  | Decimal.D6 u' => "6" :: digits u'
  | Decimal.D7 u' => "7" :: digits u'
  | Decimal.D8 u' => "8" :: digits u'
  | Decimal.D9 u' => "9" :: digits u'
  end.

(** [int.__repr__] *)
Definition encode_int (z : Z) : str :=
  match z with
  | Z0 => ["0"]
  | Zpos p => digits (Pos.to_uint p)
  | Zneg p => "-" :: digits (Pos.to_uint p)
  end.

Fixpoint join (items : list str) : str :=
  match items with
  | [] => []
  | x :: rest =>
      match rest with
      | [] => x
      | _ :: _ => x ++ py ", " ++ join rest
      end
  end.

Fixpoint encode (v : value) : str :=
  match v with
  | Null => py "null"
  | Bool true => py "true"
  | Bool false => py "false"
  | Int z => encode_int z
  | Str s => encode_string s
  | Array items => "[" :: join (map encode items) ++ ["]"]
  | Object members =>
      "{" :: join (map (fun kv => encode_string (fst kv) ++ py ": " ++ encode (snd kv))
                       members) ++ ["}"]
  end.

(** [json.dumps(obj)] *)
Definition dumps (v : value) : str := encode v.

(** *** The decoder ([json.load] with its default settings) *)

Definition is_ws (c : ascii) : bool :=
  Ascii.eqb c " " || Ascii.eqb c "009" || Ascii.eqb c "010" || Ascii.eqb c "013".

Fixpoint skip_ws (s : str) : str :=
  match s with
  | [] => []
  | c :: s' => if is_ws c then skip_ws s' else s
  end.

Definition hex_value (c : ascii) : option nat :=
  if between 48 57 c then Some (code c - 48)
  else if between 97 102 c then Some (code c - 87)
  else if between 65 70 c then Some (code c - 55)
  else None.

Definition hex4 (a b c d : ascii) : option nat :=
  match hex_value a, hex_value b, hex_value c, hex_value d with
  | Some x, Some y, Some z, Some w => Some (((x * 16 + y) * 16 + z) * 16 + w)
  | _, _, _, _ => None
  end.

(** The character a one-letter escape stands for ([BACKSLASH]). *)
Definition unescape (e : ascii) : option ascii :=
  if Ascii.eqb e "034" then Some "034"
  else if Ascii.eqb e "\" then Some "\"
  else if Ascii.eqb e "/" then Some "/"
  else if Ascii.eqb e "b" then Some "008"
  else if Ascii.eqb e "f" then Some "012"
  else if Ascii.eqb e "n" then Some "010"
  else if Ascii.eqb e "r" then Some "013"
  else if Ascii.eqb e "t" then Some "009"
  else None.

(** [scanstring] in strict mode, from the character after the opening
    quote: the decoded string and the text after the closing quote.  An
    escape [\uXXXX] above U+00FF is outside the modelled range. *)
Fixpoint scan_string (s : str) : option (str * str) :=
  match s with
  | [] => None
  | c :: rest =>
      if Ascii.eqb c "034" then Some ([], rest)
      else if Ascii.eqb c "\" then
        match rest with
        | [] => None
        | e :: rest1 =>
            if Ascii.eqb e "u" then
              match rest1 with
              | h1 :: h2 :: h3 :: h4 :: rest2 =>
                  match hex4 h1 h2 h3 h4 with
                  | Some n =>
                      if (n <? 256)%nat
                      then match scan_string rest2 with
                           | Some (x, r) => Some (ascii_of_nat n :: x, r)
                           | None => None
                           end
                      else None
                  | None => None
                  end
              | _ => None
              end
            else
              match unescape e with
              | Some d =>
                  match scan_string rest1 with
                  | Some (x, r) => Some (d :: x, r)
                  | None => None
                  end
              | None => None
              end
        end
      else if (code c <? 32)%nat then None
      else match scan_string rest with
           | Some (x, r) => Some (c :: x, r)
           | None => None
           end
  end.

Definition digit_of (c : ascii) : option (Decimal.uint -> Decimal.uint) :=
  if Ascii.eqb c "0" then Some Decimal.D0
  else if Ascii.eqb c "1" then Some Decimal.D1
  else if Ascii.eqb c "2" then Some Decimal.D2
  else if Ascii.eqb c "3" then Some Decimal.D3
  else if Ascii.eqb c "4" then Some Decimal.D4
  else if Ascii.eqb c "5" then Some Decimal.D5
  else if Ascii.eqb c "6" then Some Decimal.D6
  else if Ascii.eqb c "7" then Some Decimal.D7
  else if Ascii.eqb c "8" then Some Decimal.D8
  else if Ascii.eqb c "9" then Some Decimal.D9
  else None.

(** The longest run of digits at the head of [s]. *)
Fixpoint read_digits (s : str) : Decimal.uint * str :=
  match s with
  | [] => (Decimal.Nil, [])
  | c :: s' =>
      match digit_of c with
      | Some d => let (u, r) := read_digits s' in (d u, r)
      | None => (Decimal.Nil, s)
      end
  end.

(** The integer part of [NUMBER_RE], [0|[1-9][0-9]*]. *)
Definition scan_natural (s : str) : option (N * str) :=
  match s with
  | [] => None
  | c :: rest =>
      if Ascii.eqb c "0" then Some (0%N, rest)
      else if between 49 57 c
      then let (u, r) := read_digits s in Some (N.of_uint u, r)
      else None
  end.

(** A fraction or an exponent would follow: a float, or a syntax error. *)
Definition float_follows (rest : str) : bool :=
  match rest with
  | [] => false
  | c :: _ => Ascii.eqb c "." || Ascii.eqb c "e" || Ascii.eqb c "E"
  end.

Definition scan_number (s : str) : option (Z * str) :=
  match s with
  | [] => None
  | c :: s' =>
      if Ascii.eqb c "-"
      then match scan_natural s' with
           | Some (n, rest) =>
               if float_follows rest then None else Some (Z.opp (Z.of_N n), rest)
           | None => None
           end
      else match scan_natural s with
           | Some (n, rest) =>
               if float_follows rest then None else Some (Z.of_N n, rest)
           | None => None
           end
  end.

(** [scan_once], [JSONArray] and [JSONObject].  [scan_items] starts at an
    element and ends after the closing bracket; [scan_members] starts at a
    key and ends after the closing brace.  [fuel] bounds the depth of the
    calls. *)
Fixpoint scan_value (fuel : nat) (s : str) : option (value * str) :=
  match fuel with
  | O => None
  | S fuel' =>
      match s with
      | [] => None
      | c :: s' =>
          if Ascii.eqb c "034" then
            match scan_string s' with
            | Some (x, r) => Some (Str x, r)
            | None => None
            end
          else if Ascii.eqb c "{" then
            match skip_ws s' with
            | [] => None
            | d :: r =>
                if Ascii.eqb d "}" then Some (Object [], r)
                else match scan_members fuel' (d :: r) with
                     | Some (ms, r') => Some (Object ms, r')
                     | None => None
                     end
            end
          else if Ascii.eqb c "[" then
            match skip_ws s' with
            | [] => None
            | d :: r =>
                if Ascii.eqb d "]" then Some (Array [], r)
                else match scan_items fuel' (d :: r) with
                     | Some (vs, r') => Some (Array vs, r')
                     | None => None
                     end
            end
          else if startswith (py "null") s then Some (Null, skipn 4 s)
          else if startswith (py "true") s then Some (Bool true, skipn 4 s)
          else if startswith (py "false") s then Some (Bool false, skipn 5 s)
          else match scan_number s with
               | Some (z, r) => Some (Int z, r)
               | None => None
               end
      end
  end
with scan_items (fuel : nat) (s : str) : option (list value * str) :=
  match fuel with
  | O => None
  | S fuel' =>
      match scan_value fuel' s with
      | None => None
      | Some (v, r) =>
          match skip_ws r with
          | [] => None
          | d :: r' =>
              if Ascii.eqb d "]" then Some ([v], r')
              else if Ascii.eqb d "," then
                match scan_items fuel' (skip_ws r') with
                | Some (vs, r'') => Some (v :: vs, r'')
                | None => None
                end
              else None
          end
      end
  end
with scan_members (fuel : nat) (s : str) : option (list (str * value) * str) :=
  match fuel with
  | O => None
  | S fuel' =>
      match s with
      | [] => None
      | q :: s1 =>
          if Ascii.eqb q "034" then
            match scan_string s1 with
            | None => None
            | Some (k, r1) =>
                match skip_ws r1 with
                | [] => None
                | colon :: r2 =>
                    if Ascii.eqb colon ":" then
                      match scan_value fuel' (skip_ws r2) with
                      | None => None
                      | Some (v, r3) =>
                          match skip_ws r3 with
                          | [] => None
                          | d :: r4 =>
                              if Ascii.eqb d "}" then Some ([(k, v)], r4)
                              else if Ascii.eqb d "," then
                                match scan_members fuel' (skip_ws r4) with
                                | Some (ms, r5) => Some ((k, v) :: ms, r5)
                                | None => None
                                end
                              else None
                          end
                      end
                    else None
                end
            end
          else None
      end
  end.

(** [json.loads(s)]: one value, with nothing but whitespace around it. *)
Definition loads (s : str) : option value :=
  match scan_value (S (length s)) (skip_ws s) with
  | Some (v, r) =>
      match skip_ws r with
      | [] => Some v
      | _ :: _ => None
      end
  | None => None
  end.

End Json.

(** ** The application *)

(** An index entry, the dictionary [{'Page Number': ..., 'Sentence': ...}]. *)
Record entry := { page_number : Z; sentence : str }.

(** A search result, the dictionary
    [{'Keyword': ..., 'Page Number': ..., 'Sentence': ...}]. *)
Record result := { keyword : str; result_page : Z; result_sentence : str }.

(** [extract_sentences(page_num, text)] *)
Definition extract_sentences (page_num : Z) (text : str) : list entry :=
  let sentences := Re.split_sentences text in
  map (fun s => {| page_number := page_num + 1; sentence := s |}) sentences.

(** The highlighting of line 63:
    [re.sub(f"(?i)({re.escape(keyword)})", r"<b>\1</b>", sentence, flags=re.IGNORECASE)]. *)
Definition bold_pattern (keyword : str) : str :=
  py "(?i)(" ++ Re.escape keyword ++ py ")".

Definition bold_template : str := py "<b>\1</b>".

Definition bold_keyword (keyword sentence : str) : option str :=
  Re.sub (bold_pattern keyword) bold_template sentence true.

(** The body of the inner loop of [search_keywords_in_index]: one keyword
    against one entry, [all_data] being the list built so far. *)
Definition search_step (e : entry) (all_data : option (list result)) (kw : str)
  : option (list result) :=
  match all_data with
  | None => None
  | Some acc =>
      if contains (lower kw) (lower (sentence e))
      then match bold_keyword kw (sentence e) with
           | Some bold_keyword_in_sentence =>
               Some (acc ++ [ {| keyword := kw;
                                 result_page := page_number e;
                                 result_sentence := bold_keyword_in_sentence |} ])
           | None => None
           end
      else Some acc
  end.

(** [search_keywords_in_index(index, keywords)]: the two nested loops over
    the accumulator [all_data]. *)
Definition search_keywords_in_index (index : list entry) (keywords : list str)
  : option (list result) :=
  fold_left (fun all_data e => fold_left (search_step e) keywords all_data)
            index (Some []).

(** *** Building the index *)

(** What PyMuPDF yields for an opened document: for each page, its text, or
    [None] when [load_page(...).get_text("text")] raises. *)
Definition document := list (option str).

(** [list.sort(key=lambda x: x['Page Number'])].  Python's sort is stable;
    it is modelled by the stable insertion sort: an entry goes before the
    first entry of the sorted tail whose page number is not smaller. *)
Fixpoint insert_by_page (x : entry) (sorted : list entry) : list entry :=
  match sorted with
  | [] => [x]
  | y :: rest =>
      if (page_number x <=? page_number y)%Z
      then x :: sorted
      else y :: insert_by_page x rest
  end.

Definition sort_by_page (index : list entry) : list entry :=
  fold_right insert_by_page [] index.

(** The [try] block of [preprocess_pdf] runs over the list [index], which the
    function returns whether the block finishes or raises.  A step maps the
    index to the index after it and to its value, [None] when it raises. *)
Definition Build (A : Type) : Type := list entry -> option A * list entry.

Definition ret {A : Type} (a : A) : Build A := fun index => (Some a, index).

Definition bind {A B : Type} (m : Build A) (k : A -> Build B) : Build B :=
  fun index =>
    match m index with
    | (Some a, index') => k a index'
    | (None, index') => (None, index')
    end.

Notation "x <- m ;; k" := (bind m (fun x => k))
  (at level 61, m at next level, right associativity).

(** A library call that may raise. *)
Definition call {A : Type} (outcome : option A) : Build A :=
  fun index => (outcome, index).

(** [index.extend(entries)] *)
Definition extend (entries : list entry) : Build unit :=
  fun index => (Some tt, index ++ entries).

(** [index.sort(key=...)] *)
Definition sort_index : Build unit :=
  fun index => (Some tt, sort_by_page index).

(** A future holds the outcome of its task: the value the task returned, or
    [None] when the task raised. *)
Definition future := option (list entry).

(** [executor.submit(extract_sentences, page_num, text)].  The task evaluates
    [extract_sentences], which returns on every text. *)
Definition submit (page_num : Z) (text : str) : future :=
  Some (extract_sentences page_num text).

(** The first loop: for every page, in order, the parent process reads the
    text of the page, which may raise, and submits [extract_sentences] on
    it. *)
Fixpoint submit_pages (page_num : nat) (pages : list (option str))
  : Build (list future) :=
  match pages with
  | [] => ret []
  | page :: rest =>
      text <- call page ;;
      futures <- submit_pages (S page_num) rest ;;
      ret (submit (Z.of_nat page_num) text :: futures)
  end.

(** The second loop: [as_completed] hands out the futures in the order
    [completion] (indices into [futures]) in which the workers finished;
    [future.result()] gives the value of the task or raises what the task
    raised, and the index is extended in place. *)
Fixpoint collect (futures : list future) (completion : list nat) : Build unit :=
  match completion with
  | [] => ret tt
  | i :: rest =>
      entries <- call (nth i futures (Some [])) ;;
      _ <- extend entries ;;
      collect futures rest
  end.

(** [preprocess_pdf(pdf_file)].  [opened] is the outcome of
    [fitz.open(pdf_file)]; [completion] is the order in which the pool
    completes the tasks, the only trace the size of the pool and the
    scheduling leave in the run. *)
Definition preprocess_pdf (opened : option document) (completion : list nat)
  : list entry :=
  snd ((pdf_document <- call opened ;;
        futures <- submit_pages 0 pdf_document ;;
        _ <- collect futures completion ;;
        sort_index) []).

(** The completion orders of a document of [total_pages] pages: every task
    completes once. *)
Definition schedule (total_pages : nat) (completion : list nat) : Prop :=
  Permutation completion (seq 0 total_pages).

(** The order of submission, in which a pool of one worker completes the
    tasks. *)
Definition one_worker (total_pages : nat) : list nat := seq 0 total_pages.

(** *** The index file *)

(** A file is a document PyMuPDF can open or a text file. *)
Inductive file :=
| Pdf (pages : document)
| Text (content : str).

Definition filesystem := string -> option file.

Definition PDF_FILE_PATH : string := "Resources/physText.pdf".
Definition INDEX_FILE_PATH : string := "Resources/index.json".

(** [os.path.isfile(path)] *)
Definition isfile (fs : filesystem) (path : string) : bool :=
  match fs path with
  | Some _ => true
  | None => false
  end.

(** [fitz.open(path)] *)
Definition fitz_open (fs : filesystem) (path : string) : option document :=
  match fs path with
  | Some (Pdf pages) => Some pages
  | _ => None
  end.

(** Writing a text file, as [open(filename, 'w')] followed by the writes. *)
Definition write_text (fs : filesystem) (filename : string) (content : str)
  : filesystem :=
  fun path => if String.eqb path filename then Some (Text content) else fs path.

(** The index as the Python value it is: a list of dictionaries. *)
Definition entry_value (e : entry) : Json.value :=
  Json.Object [ (py "Page Number", Json.Int (page_number e));
                (py "Sentence", Json.Str (sentence e)) ].

Definition index_value (index : list entry) : Json.value :=
  Json.Array (map entry_value index).

(** Reading a loaded value back as an index.  The typed model does here what
    Python does at the first [entry['Sentence']] or [entry['Page Number']] of
    a search: a value of another shape is an error. *)
Definition value_entry (v : Json.value) : option entry :=
  match v with
  | Json.Object members =>
      match Json.dict_get (py "Page Number") members,
            Json.dict_get (py "Sentence") members with
      | Some (Json.Int n), Some (Json.Str s) =>
          Some {| page_number := n; sentence := s |}
      | _, _ => None
      end
  | _ => None
  end.

Fixpoint value_entries (items : list Json.value) : option (list entry) :=
  match items with
  | [] => Some []
  | v :: rest =>
      match value_entry v, value_entries rest with
      | Some e, Some es => Some (e :: es)
      | _, _ => None
      end
  end.

Definition value_index (v : Json.value) : option (list entry) :=
  match v with
  | Json.Array items => value_entries items
  | _ => None
  end.

(** [save_index_to_file(index, filename)] *)
Definition save_index_to_file (index : list entry) (filename : string)
  (fs : filesystem) : filesystem :=
  write_text fs filename (Json.dumps (index_value index)).

(** [load_index_from_file(filename)] *)
Definition load_index_from_file (filename : string) (fs : filesystem)
  : option (list entry) :=
  match fs filename with
  | Some (Text content) =>
      match Json.loads content with
      | Some v => value_index v
      | None => None
      end
  | _ => None
  end.

(** *** The search entry point *)

(** The two readings of [time.time()], before and after the work. *)
Record clock := { start_time : float; end_time : float }.

(** [search_keywords_in_pdf(pdf_file, keywords)]: the returned pair
    [(found_data, duration)], [None] when an exception escapes, and the file
    system after the call. *)
Definition search_keywords_in_pdf (fs : filesystem) (completion : list nat)
  (clk : clock) (pdf_file : string) (keywords : list str)
  : option (list result * float) * filesystem :=
  if negb (isfile fs pdf_file) then (Some ([], 0%float), fs)
  else
    let (loaded, fs') :=
      if isfile fs INDEX_FILE_PATH
      then (load_index_from_file INDEX_FILE_PATH fs, fs)
      else let index := preprocess_pdf (fitz_open fs pdf_file) completion in
           (Some index, save_index_to_file index INDEX_FILE_PATH fs) in
    match loaded with
    | None => (None, fs')
    | Some index =>
        match search_keywords_in_index index keywords with
        | None => (None, fs')
        | Some found_data =>
            (Some (found_data, PrimFloat.sub (end_time clk) (start_time clk)), fs')
        end
    end.

(** ** Notions used in the statements *)

(** *** Search *)

(** The keyword [kw] occurs in [s] case-insensitively: some slice of [s]
    equals [kw] up to case. *)
Definition occurs_ci (kw s : str) : Prop :=
  exists pre mid post, s = pre ++ mid ++ post /\ lower mid = lower kw.

(** The pairs (entry, keyword) of an index and a keyword list whose keyword
    passes the test of the search, entries first, keywords second. *)
Definition matching_pairs (index : list entry) (keywords : list str)
  : list (entry * str) :=
  filter (fun p => contains (lower (snd p)) (lower (sentence (fst p))))
         (list_prod index keywords).

(** The matching pairs of one entry. *)
Definition entry_results (e : entry) (keywords : list str) : list (entry * str) :=
  filter (fun p => contains (lower (snd p)) (lower (sentence (fst p))))
         (map (fun k => (e, k)) keywords).

(** The result of the search for one matching pair. *)
Definition result_of (r : result) (p : entry * str) : Prop :=
  keyword r = snd p /\ result_page r = page_number (fst p)
  /\ bold_keyword (snd p) (sentence (fst p)) = Some (result_sentence r).

(** The pattern of [bold_keyword] once compiled: the characters of the
    keyword as literals, compared without regard to case. *)
Definition bold_regex (kw : str) : Re.regex :=
  {| Re.ignorecase := true; Re.group1 := map Re.Lit kw |}.

(** A highlighted sentence cut into the pieces of the substitution: with the
    markers around every match, and with the markers taken out again. *)
Definition with_markup (pieces : list Re.piece) : str :=
  flat_map (fun p => match p with
                     | Re.Slice c => [c]
                     | Re.Found m => py "<b>" ++ m ++ py "</b>"
                     end) pieces.

Definition without_markup (pieces : list Re.piece) : str :=
  flat_map Re.covered pieces.

(** Dropping every [<b>] and [</b>] of a string, left to right. *)
Fixpoint strip_tags (s : str) : str :=
  match s with
  | "<" :: "b" :: ">" :: s' => strip_tags s'
  | "<" :: "/" :: "b" :: ">" :: s' => strip_tags s'
  | c :: s' => c :: strip_tags s'
  | [] => []
  end.

(** The start offsets of the non-overlapping case-insensitive occurrences of
    [kw] in [s], found left to right: [pos] is the offset of the head of [s],
    [skip] the number of characters still inside the occurrence found
    last. *)
Fixpoint occurrences_from (kw : str) (skip pos : nat) (s : str) : list nat :=
  match s with
  | [] => []
  | _ :: s' =>
      match skip with
      | S k => occurrences_from kw k (S pos) s'
      | O =>
          if startswith (lower kw) (lower s)
          then pos :: occurrences_from kw (length kw - 1) (S pos) s'
          else occurrences_from kw 0 (S pos) s'
      end
  end.

Definition occurrences (kw s : str) : list nat := occurrences_from kw 0 0 s.

(** [s], whose head is at offset [pos], with the slice of [len] characters at
    each of the offsets [starts] wrapped in its own [<b>...</b>]. *)
Fixpoint wrap_at (len : nat) (starts : list nat) (pos : nat) (s : str) : str :=
  match starts with
  | [] => s
  | p :: starts' =>
      firstn (p - pos) s
      ++ py "<b>" ++ firstn len (skipn (p - pos) s) ++ py "</b>"
      ++ wrap_at len starts' (p + len) (skipn (p - pos + len) s)
  end.

(** The highlighting of the empty keyword: an empty pair before every
    character and one at the end. *)
Definition empty_highlight (s : str) : str :=
  flat_map (fun c => py "<b></b>" ++ [c]) s ++ py "<b></b>".

(** The results the empty keyword gives for one entry when it stands [n]
    times in the keyword list. *)
Definition empty_keyword_results (n : nat) (e : entry) : list result :=
  repeat {| keyword := [];
            result_page := page_number e;
            result_sentence := empty_highlight (sentence e) |} n.

(** The results that belong to the empty keyword. *)
Definition for_empty_keyword (r : result) : bool := Re.is_nil (keyword r).

(** The fuel the substitution loop needs on [s]. *)
Definition enough_fuel (must_advance : bool) (s : str) : nat :=
  2 * length s + (if must_advance then 1 else 2).

(** *** The build *)

(** The values of the futures the first loop of [preprocess_pdf] creates,
    when every page yields its text: the segmentation of each page, in page
    order, the first page having the index [page_num]. *)
Fixpoint submitted (page_num : nat) (pages : list (option str))
  : option (list (list entry)) :=
  match pages with
  | [] => Some []
  | None :: _ => None
  | Some text :: rest =>
      option_map (cons (extract_sentences (Z.of_nat page_num) text))
                 (submitted (S page_num) rest)
  end.

(** The entries of page number [k]. *)
Definition on_page (k : Z) (e : entry) : bool := (page_number e =? k)%Z.

(** The order of the index. *)
Definition page_le (a b : entry) : Prop := (page_number a <= page_number b)%Z.

(** The number of pages of an opened document, 0 when it did not open. *)
Definition total_pages (opened : option document) : nat :=
  match opened with
  | Some pages => length pages
  | None => 0
  end.

(** Some step of the extraction raises: the document does not open, or the
    text of one of its pages cannot be read. *)
Definition extraction_fails (opened : option document) : Prop :=
  match opened with
  | Some pages => In None pages
  | None => True
  end.

(** Example documents. *)
Definition two_pages : document :=
  [ Some (py "Newton's first law holds. It is foundational.");
    Some (py "The second law of motion is different.") ].

Definition unreadable_third_page : document :=
  [ Some (py "One. Two."); Some (py "Three."); None; Some (py "Four.") ].

(** *** The index file *)

(** The depth of the decoder's calls on the text of a value. *)
Fixpoint weight (v : Json.value) : nat :=
  match v with
  | Json.Array items => S (fold_right (fun x n => S (weight x + n)) 0 items)
  | Json.Object members =>
      S (fold_right (fun kv n => S (weight (snd kv) + n)) 0 members)
  | _ => 1
  end.

(** The text after an integer must not continue the number. *)
Definition follow_ok (rest : str) : bool :=
  match rest with
  | [] => true
  | c :: _ =>
      negb (Re.is_digit c || Ascii.eqb c "." || Ascii.eqb c "e" || Ascii.eqb c "E")
  end.

(** A value starts with a character that is no whitespace and closes no
    array or object. *)
Definition opens_value (c : ascii) : bool :=
  negb (Json.is_ws c || Ascii.eqb c "]" || Ascii.eqb c "}").

Definition items_weight (items : list Json.value) : nat :=
  fold_right (fun x n => S (weight x + n)) 0 items.

Definition members_weight (members : list (str * Json.value)) : nat :=
  fold_right (fun kv n => S (weight (snd kv) + n)) 0 members.

(** The decoder reads the text of [v] back, whatever follows it. *)
Definition decodes (v : Json.value) : Prop :=
  forall fuel rest,
    weight v <= fuel -> follow_ok rest = true ->
    Json.scan_value fuel (Json.encode v ++ rest) = Some (v, rest).

(** The text of one member of an object, as [Json.encode] writes it. *)
Definition encode_member (kv : str * Json.value) : str :=
  Json.encode_string (fst kv) ++ py ": " ++ Json.encode (snd kv).

(** *** The search entry point *)

(** Example file systems and clock: no file at all; the document alone,
    with one page and no index file yet; a clock that does not advance
    between its two readings. *)
Definition no_files : filesystem := fun _ => None.

Definition document_only : filesystem :=
  fun path =>
    if String.eqb path PDF_FILE_PATH
    then Some (Pdf [ Some (py "Momentum is conserved.") ])
    else None.

Definition still_clock : clock :=
  {| start_time := 2.5%float; end_time := 2.5%float |}.

(** ** The rest of the application *)

(** *** Python dictionaries built by [json.load] *)

Module Dict.

(** [d[key] = v]: the value of a key already there is replaced where it
    stands, a new key goes to the end. *)
Fixpoint set (key : str) (v : Json.value) (d : list (str * Json.value))
  : list (str * Json.value) :=
  match d with
  | [] => [(key, v)]
  | (k, x) :: rest =>
      if Json.str_eqb k key then (k, v) :: rest
      else (k, x) :: set key v rest
  end.

(** [dict(pairs)] *)
Definition of_pairs (pairs : list (str * Json.value)) : list (str * Json.value) :=
  fold_left (fun d kv => set (fst kv) (snd kv) d) pairs [].

(** The value [json.load] builds from the parsed text: every object becomes
    a [dict], in which a key met twice keeps its first place and its last
    value. *)
Fixpoint normalize (v : Json.value) : Json.value :=
  match v with
  | Json.Array items => Json.Array (map normalize items)
  | Json.Object members =>
      Json.Object (of_pairs (map (fun kv => (fst kv, normalize (snd kv))) members))
  | _ => v
  end.

(** [json.loads(s)], with the dictionaries built. *)
Definition loads (s : str) : option Json.value := option_map normalize (Json.loads s).

(** The keys of a dictionary are pairwise different, at every depth. *)
Fixpoint well_formed (v : Json.value) : Prop :=
  match v with
  | Json.Array items => fold_right (fun x P => well_formed x /\ P) True items
  | Json.Object members =>
      NoDup (map fst members)
      /\ fold_right (fun kv P => well_formed (snd kv) /\ P) True members
  | _ => True
  end.

End Dict.

(** *** [json.dump(obj, f, indent=4)] *)

Module Pretty.

(** A line break and the indentation of a nesting level. *)
Definition newline_indent (level : nat) : str := "010" :: repeat " " (4 * level).

Fixpoint join (sep : str) (items : list str) : str :=
  match items with
  | [] => []
  | x :: rest =>
      match rest with
      | [] => x
      | _ :: _ => x ++ sep ++ join sep rest
      end
  end.

(** With an indent the item separator is a comma followed by the line break;
    the key separator stays [": "]; empty lists and dictionaries stay on one
    line. *)
Fixpoint encode (level : nat) (v : Json.value) : str :=
  match v with
  | Json.Array [] => py "[]"
  | Json.Array items =>
      "[" :: newline_indent (S level)
      ++ join ("," :: newline_indent (S level)) (map (encode (S level)) items)
      ++ newline_indent level ++ ["]"]
  | Json.Object [] => py "{}"
  | Json.Object members =>
      "{" :: newline_indent (S level)
      ++ join ("," :: newline_indent (S level))
              (map (fun kv => Json.encode_string (fst kv) ++ py ": "
                              ++ encode (S level) (snd kv)) members)
      ++ newline_indent level ++ ["}"]
  | _ => Json.encode v
  end.

(** [json.dumps(v, indent=4)] *)
Definition dumps (v : Json.value) : str := encode 0 v.

End Pretty.

(** *** Index initialisation *)

(** [initialize_index(pdf_file, index_file)] *)
Definition initialize_index (fs : filesystem) (completion : list nat)
  (pdf_file index_file : string) : filesystem :=
  if negb (isfile fs index_file)
  then let index := preprocess_pdf (fitz_open fs pdf_file) completion in
       save_index_to_file index index_file fs
  else fs.

(** *** The forum file

    As for the index file, the directory of the path is taken to exist, so
    that opening the file for writing succeeds.  The values of a submission
    are JSON values: what [request.json] hands over. *)

Definition FORUM_FILE_PATH : string := "data/tribleKnowledge/tkData.json".

(** [load_forum_data()]: the value of the forum file, the empty list when
    there is no such file; [None] when the file does not hold JSON. *)
Definition load_forum_data (fs : filesystem) : option Json.value :=
  if isfile fs FORUM_FILE_PATH
  then match fs FORUM_FILE_PATH with
       | Some (Text content) => Dict.loads content
       | _ => None
       end
  else Some (Json.Array []).

(** The dictionary [forum_data] of [save_forum_data]. *)
Definition forum_record (name problem_description solution : Json.value)
  : Json.value :=
  Json.Object [ (py "Name", name);
                (py "Problem Description", problem_description);
                (py "Solution", solution) ].

(** [forum_list.append(forum_data)], defined on lists only. *)
Definition forum_append (forum_list forum_data : Json.value) : option Json.value :=
  match forum_list with
  | Json.Array items => Some (Json.Array (items ++ [forum_data]))
  | _ => None
  end.

(** [save_forum_data(name, problem_description, solution)]: [Some tt] when
    the function returns, and the files after the call. *)
Definition save_forum_data (name problem_description solution : Json.value)
  (fs : filesystem) : option unit * filesystem :=
  match load_forum_data fs with
  | None => (None, fs)
  | Some forum_list =>
      match forum_append forum_list (forum_record name problem_description solution) with
      | None => (None, fs)
      | Some forum_list' =>
          (Some tt, write_text fs FORUM_FILE_PATH (Pretty.dumps forum_list'))
      end
  end.

(** [data[key]] on the body of a request: defined on dictionaries that hold
    the key. *)
Definition subscript (data : Json.value) (key : str) : option Json.value :=
  match data with
  | Json.Object members => Json.dict_get key members
  | _ => None
  end.

(** The route [submit_problem], from the parsed body of the request to the
    value handed to [jsonify]. *)
Definition submit_problem (data : Json.value) (fs : filesystem)
  : option Json.value * filesystem :=
  match subscript data (py "name"),
        subscript data (py "problem-description"),
        subscript data (py "solution") with
  | Some name, Some problem_description, Some solution =>
      match save_forum_data name problem_description solution fs with
      | (Some _, fs') =>
          (Some (Json.Object [ (py "message", Json.Str (py "Data submitted successfully")) ]),
           fs')
      | (None, fs') => (None, fs')
      end
  | _, _, _ => (None, fs)
  end.

(** ** Notions used in the further statements *)

(** *** Segmentation *)

(** The pieces of a split put together again, with the separator [seps]
    between them, one after the other. *)
Fixpoint rejoin (pieces : list str) (seps : list ascii) : str :=
  match pieces with
  | [] => []
  | p :: rest =>
      p ++ match seps with
           | c :: seps' => c :: rejoin rest seps'
           | [] => concat rest
           end
  end.

(** A full stop or a question mark. *)
Definition is_terminal (c : ascii) : bool := Ascii.eqb c "." || Ascii.eqb c "?".

(** The last character of [s] is a full stop or a question mark. *)
Definition ends_sentence (s : str) : bool :=
  match rev s with
  | c :: _ => is_terminal c
  | [] => false
  end.

(** The sentences of an index, in order. *)
Definition sentences (index : list entry) : list str := map sentence index.

(** The state of the scan of [Re.split_scan]: the current piece is the
    nearest part of the text behind, and what lies behind the piece is
    nothing or starts with the separator that closed the piece before. *)
Definition scan_state (behind piece : str) : Prop :=
  exists older,
    behind = piece ++ older
    /\ match older with
       | [] => True
       | c :: _ => isspace c = true
       end.

(** The pattern of the segmentation matches the character [c] that follows
    the text [before], the text being read on its own. *)
Definition splits_at (before : str) (c : ascii) : bool := Re.boundary (rev before) c.

(** No position inside [s] matches the pattern of the segmentation. *)
Definition unbroken (s : str) : Prop :=
  forall a c b, s = a ++ c :: b -> splits_at a c = false.

(** *** The build *)

(** The index of a document whose pages all yield their text: the
    segmentation of each page, one page after the other. *)
Definition pages_index (first_page : nat) (texts : list str) : list entry :=
  flat_map (fun p => extract_sentences (Z.of_nat (fst p)) (snd p))
           (combine (seq first_page (length texts)) texts).

(** A document whose pages all yield their text. *)
Definition readable (texts : list str) : document := map Some texts.

(** *** The text of the files *)

(** The decoder reads the indented text of [v] back, at every nesting
    level and whatever follows it. *)
Definition decodes_pretty (v : Json.value) : Prop :=
  forall level fuel rest,
    weight v <= fuel -> follow_ok rest = true ->
    Json.scan_value fuel (Pretty.encode level v ++ rest) = Some (v, rest).

(** The indented text of one member of an object. *)
Definition pretty_member (level : nat) (kv : str * Json.value) : str :=
  Json.encode_string (fst kv) ++ py ": " ++ Pretty.encode level (snd kv).

(** A character of the range [' '..'~']. *)
Definition printable (c : ascii) : Prop := between 32 126 c = true.

(** *** Search *)


(** The order of the results by page. *)
Definition result_page_le (r r' : result) : Prop :=
  (result_page r <= result_page r')%Z.

(** *** The search entry point *)

(** The duration a search reports. *)
Definition duration (clk : clock) : float :=
  PrimFloat.sub (end_time clk) (start_time clk).

(** Example file systems: a file at the path of the document that PyMuPDF
    cannot open, and the same with a blank index file beside it. *)
Definition broken_document_only : filesystem :=
  fun path =>
    if String.eqb path PDF_FILE_PATH then Some (Text (py "not a document")) else None.

Definition blank_index_file : filesystem :=
  fun path =>
    if String.eqb path INDEX_FILE_PATH then Some (Text [])
    else document_only path.

(** *** The forum *)

(** One submission to the forum: name, problem description and solution. *)
Record submission := {
  sub_name : Json.value;
  sub_problem : Json.value;
  sub_solution : Json.value
}.

Definition submission_record (s : submission) : Json.value :=
  forum_record (sub_name s) (sub_problem s) (sub_solution s).

Definition submission_ok (s : submission) : Prop :=
  Dict.well_formed (sub_name s) /\ Dict.well_formed (sub_problem s)
  /\ Dict.well_formed (sub_solution s).

(** [save_forum_data] called for each submission in turn, as long as the
    calls return. *)
Fixpoint save_submissions (subs : list submission) (fs : filesystem)
  : option unit * filesystem :=
  match subs with
  | [] => (Some tt, fs)
  | s :: rest =>
      match save_forum_data (sub_name s) (sub_problem s) (sub_solution s) fs with
      | (Some _, fs') => save_submissions rest fs'
      | (None, fs') => (None, fs')
      end
  end.

(** The forum file cannot be used: it is blank, or its value is no list. *)
Definition forum_file_unusable (fs : filesystem) : Prop :=
  (exists content, fs FORUM_FILE_PATH = Some (Text content)
                   /\ Json.skip_ws content = [])
  \/ (exists v, load_forum_data fs = Some v
                /\ forall items, v <> Json.Array items).

(** The body of a request lacks a field of a submission. *)
Definition lacks_field (data : Json.value) : Prop :=
  subscript data (py "name") = None
  \/ subscript data (py "problem-description") = None
  \/ subscript data (py "solution") = None.

(** Example data. *)
Definition first_submission : submission :=
  {| sub_name := Json.Str (py "Ada");
     sub_problem := Json.Str (py "Index file is empty");
     sub_solution := Json.Str (py "Delete it and restart") |}.

Definition blank_forum_file : filesystem :=
  fun path => if String.eqb path FORUM_FILE_PATH then Some (Text (py "  ")) else None.

Definition request_without_solution : Json.value :=
  Json.Object [ (py "name", Json.Str (py "Ada"));
                (py "problem-description", Json.Str (py "No results")) ].

Definition full_request : Json.value :=
  Json.Object [ (py "name", Json.Str (py "Ada"));
                (py "problem-description", Json.Str (py "No results"));
                (py "solution", Json.Str (py "Rebuild the index")) ].

(** Case analysis on the 256 characters. *)
Ltac each_char c := destruct c as [[] [] [] [] [] [] [] []].

(** * Properties *)

(** ** Segmentation *)

(** C3, as stated, fails: for the empty page text [re.split] returns the list
    with the empty string, so the segmentation of page 0 is not the empty
    sequence. *)
Lemma extract_sentences_empty_text_not_empty :
  extract_sentences 0 [] <> [].
Proof. vm_compute. discriminate. Qed.

(** C3, amended: for the empty page text, [extract_sentences] yields exactly
    one entry, whose sentence is the empty string and whose page number is
    [page_num + 1]. *)
Theorem extract_sentences_empty_text (page_num : Z) :
  extract_sentences page_num []
  = [ {| page_number := page_num + 1; sentence := [] |} ].
Proof. reflexivity. Qed.

(** ** Characters *)

Lemma parse_group_escaped (c : ascii) (p : str) :
  Re.parse_group ((if Re.is_special c then ["\"; c] else [c]) ++ p)
  = option_map (cons (Re.Lit c)) (Re.parse_group p).
Proof. each_char c; reflexivity. Qed.

Lemma parse_group_escape (kw : str) :
  Re.parse_group (Re.escape kw ++ [")"]) = Some (map Re.Lit kw).
Proof.
  induction kw as [|c kw IH]; [reflexivity|].
  unfold Re.escape in *. cbn [flat_map]. rewrite <- app_assoc.
  rewrite parse_group_escaped, IH. reflexivity.
Qed.

Lemma compile_bold_pattern (kw : str) :
  Re.compile (bold_pattern kw) true
  = Some {| Re.ignorecase := true; Re.group1 := map Re.Lit kw |}.
Proof.
  unfold bold_pattern. change (py "(?i)(") with ["("; "?"; "i"; ")"; "("].
  cbn [app Re.compile]. 
  change (py ")") with [")"]. rewrite parse_group_escape. reflexivity.
Qed.
(** ** Matching *)

Lemma startswith_lower_cons (a b : ascii) (kw s : str) :
  startswith (lower (a :: kw)) (lower (b :: s))
  = Ascii.eqb (lower_char a) (lower_char b) && startswith (lower kw) (lower s).
Proof. reflexivity. Qed.

(** A case-insensitive match of the literal atoms of [kw] is the test
    [startswith] on the lowered strings, and the matched text is the slice of
    the subject, in its own casing. *)
Lemma match_here_literal (kw s : str) :
  Re.match_here true (map Re.Lit kw) s
  = if startswith (lower kw) (lower s)
    then Some (firstn (length kw) s, skipn (length kw) s)
    else None.
Proof.
  revert s. induction kw as [|a kw IH]; intros s; [reflexivity|].
  destruct s as [|b s]; [reflexivity|].
  cbn [map Re.match_here Re.atom_matches length firstn skipn].
  rewrite startswith_lower_cons, IH.
  destruct (Ascii.eqb (lower_char a) (lower_char b)); [|reflexivity].
  destruct (startswith (lower kw) (lower s)); reflexivity.
Qed.

Lemma match_here_split (icase : bool) (atoms : list Re.atom) (s m rest : str) :
  Re.match_here icase atoms s = Some (m, rest) ->
  s = m ++ rest /\ length m = length atoms.
Proof.
  revert s m rest. induction atoms as [|a atoms IH]; intros s m rest H.
  - cbn in H. inversion H; subst. split; reflexivity.
  - destruct s as [|c s]; [discriminate|]. cbn in H.
    destruct (Re.atom_matches icase a c); [|discriminate].
    destruct (Re.match_here icase atoms s) as [[m' r']|] eqn:E; [|discriminate].
    inversion H; subst. destruct (IH _ _ _ E) as [-> Hl].
    split; [reflexivity | cbn; now rewrite Hl].
Qed.

(** ** The substitution loop *)

(** With two iterations per character the loop never runs out of fuel. *)
Lemma sub_pieces_total (rx : Re.regex) (fuel : nat) :
  forall (must_advance : bool) (s : str),
    enough_fuel must_advance s <= fuel ->
    exists pieces, Re.sub_pieces fuel rx must_advance s = Some pieces.
Proof.
  induction fuel as [|fuel IH]; intros ma s Hf.
  - unfold enough_fuel in Hf. destruct ma; lia.
  - cbn [Re.sub_pieces].
    assert (Hcopy : exists pieces,
      match s with
      | [] => Some []
      | c :: s' => option_map (cons (Re.Slice c)) (Re.sub_pieces fuel rx false s')
      end = Some pieces).
    { destruct s as [|c s']; [now eexists|].
      destruct (IH false s') as [ps Hps].
      - unfold enough_fuel in *. cbn [length] in Hf. destruct ma; lia.
      - rewrite Hps. now eexists. }
    destruct (Re.match_here (Re.ignorecase rx) (Re.group1 rx) s) as [[m rest]|] eqn:E;
      [|exact Hcopy].
    destruct (ma && Re.is_nil m) eqn:Hma; [exact Hcopy|].
    destruct (match_here_split _ _ _ _ _ E) as [-> _].
    destruct (IH (Re.is_nil m) rest) as [ps Hps].
    + unfold enough_fuel in *. rewrite length_app in Hf.
      destruct m as [|c m]; cbn [Re.is_nil length] in *.
      * rewrite andb_true_r in Hma. subst ma. lia.
      * destruct ma; lia.
    + rewrite Hps. now eexists.
Qed.

(** The pieces cover the subject: joined without any replacement they give it
    back, character for character. *)
Lemma sub_pieces_cover (rx : Re.regex) (fuel : nat) :
  forall (must_advance : bool) (s : str) (pieces : list Re.piece),
    Re.sub_pieces fuel rx must_advance s = Some pieces ->
    flat_map Re.covered pieces = s.
Proof.
  induction fuel as [|fuel IH]; intros ma s pieces H; [discriminate|].
  cbn [Re.sub_pieces] in H.
  assert (Hcopy :
    match s with
    | [] => Some []
    | c :: s' => option_map (cons (Re.Slice c)) (Re.sub_pieces fuel rx false s')
    end = Some pieces -> flat_map Re.covered pieces = s).
  { destruct s as [|c s']; intros Hc.
    - now inversion Hc.
    - destruct (Re.sub_pieces fuel rx false s') as [ps|] eqn:E; [|discriminate].
      inversion Hc; subst. cbn. now rewrite (IH _ _ _ E). }
  destruct (Re.match_here (Re.ignorecase rx) (Re.group1 rx) s) as [[m rest]|] eqn:E;
    [|now apply Hcopy].
  destruct (ma && Re.is_nil m); [now apply Hcopy|].
  destruct (Re.sub_pieces fuel rx (Re.is_nil m) rest) as [ps|] eqn:E'; [|discriminate].
  inversion H; subst. cbn [flat_map Re.covered].
  rewrite (IH _ _ _ E'). symmetry. now apply (match_here_split _ _ _ _ _ E).
Qed.

(** Every match found under a literal pattern is the keyword up to case. *)
Lemma sub_pieces_found (kw : str) (fuel : nat) :
  forall (must_advance : bool) (s : str) (pieces : list Re.piece) (m : str),
    Re.sub_pieces fuel {| Re.ignorecase := true; Re.group1 := map Re.Lit kw |}
                  must_advance s = Some pieces ->
    In (Re.Found m) pieces -> lower m = lower kw.
Proof.
  induction fuel as [|fuel IH]; intros ma s pieces m H Hin; [discriminate|].
  cbn [Re.sub_pieces Re.ignorecase Re.group1] in H.
  assert (Hcopy :
    match s with
    | [] => Some []
    | c :: s' => option_map (cons (Re.Slice c))
        (Re.sub_pieces fuel {| Re.ignorecase := true; Re.group1 := map Re.Lit kw |} false s')
    end = Some pieces -> lower m = lower kw).
  { destruct s as [|c s']; intros Hc.
    - inversion Hc; subst. destruct Hin.
    - destruct (Re.sub_pieces fuel _ false s') as [ps|] eqn:E; [|discriminate].
      inversion Hc; subst. destruct Hin as [Hin|Hin]; [discriminate|].
      exact (IH _ _ _ _ E Hin). }
  rewrite match_here_literal in H.
  destruct (startswith (lower kw) (lower s)) eqn:Hsw; [|now apply Hcopy].
  destruct (ma && Re.is_nil _); [now apply Hcopy|].
  destruct (Re.sub_pieces fuel _ _ _) as [ps|] eqn:E'; [|discriminate].
  inversion H; subst. destruct Hin as [Hin|Hin]; [|exact (IH _ _ _ _ E' Hin)].
  inversion Hin; subst. clear -Hsw.
  revert s Hsw. induction kw as [|a kw IHk]; intros s Hsw; [reflexivity|].
  destruct s as [|b s]; [discriminate|].
  rewrite startswith_lower_cons in Hsw. apply andb_true_iff in Hsw as [Hc Hs].
  apply Ascii.eqb_eq in Hc. cbn [length firstn lower map].
  f_equal; [congruence|]. apply IHk, Hs.
Qed.

(** ** The highlighting of one sentence *)

Lemma render_bold (pieces : list Re.piece) :
  flat_map (Re.render [Re.TLit "<"; Re.TLit "b"; Re.TLit ">"; Re.TGroup1;
                       Re.TLit "<"; Re.TLit "/"; Re.TLit "b"; Re.TLit ">"]) pieces
  = with_markup pieces.
Proof.
  unfold with_markup. apply flat_map_ext. intros [c|m]; [reflexivity|].
  reflexivity.
Qed.

(** [bold_keyword] is the join of the pieces of the substitution loop, run
    with the literal pattern of the keyword. *)
Lemma bold_keyword_eq (kw s : str) :
  bold_keyword kw s
  = option_map with_markup (Re.sub_pieces (Re.sub_fuel s) (bold_regex kw) false s).
Proof.
  unfold bold_keyword, Re.sub. rewrite compile_bold_pattern.
  change (Re.parse_template bold_template)
    with (Some [Re.TLit "<"; Re.TLit "b"; Re.TLit ">"; Re.TGroup1;
                Re.TLit "<"; Re.TLit "/"; Re.TLit "b"; Re.TLit ">"]).
  fold (bold_regex kw).
  destruct (Re.sub_pieces (Re.sub_fuel s) (bold_regex kw) false s); [|reflexivity].
  cbn [option_map]. now rewrite render_bold.
Qed.

(** The highlighting never raises, and its result is the sentence cut into
    pieces, the matches being slices equal to the keyword up to case. *)
Lemma bold_keyword_pieces (kw s : str) :
  exists pieces,
    Re.sub_pieces (Re.sub_fuel s) (bold_regex kw) false s = Some pieces
    /\ bold_keyword kw s = Some (with_markup pieces)
    /\ without_markup pieces = s
    /\ (forall m, In (Re.Found m) pieces -> lower m = lower kw).
Proof.
  destruct (sub_pieces_total (bold_regex kw) (Re.sub_fuel s) false s) as [ps Hps].
  { unfold enough_fuel, Re.sub_fuel. lia. }
  exists ps. rewrite bold_keyword_eq, Hps. split; [reflexivity|].
  split; [reflexivity|]. split.
  - exact (sub_pieces_cover _ _ _ _ _ Hps).
  - intros m. exact (sub_pieces_found _ _ _ _ _ _ Hps).
Qed.

Lemma bold_keyword_total (kw s : str) :
  exists bold, bold_keyword kw s = Some bold.
Proof. destruct (bold_keyword_pieces kw s) as [ps [_ [H _]]]. eexists. exact H. Qed.

(** ** The search loops *)

Lemma matching_pairs_cons (e : entry) (index : list entry) (keywords : list str) :
  matching_pairs (e :: index) keywords
  = entry_results e keywords ++ matching_pairs index keywords.
Proof. unfold matching_pairs, entry_results. cbn [list_prod]. apply filter_app. Qed.

Lemma inner_loop (e : entry) (keywords : list str) :
  forall acc : list result,
  exists added,
    fold_left (search_step e) keywords (Some acc) = Some (acc ++ added)
    /\ Forall2 result_of added (entry_results e keywords).
Proof.
  induction keywords as [|k keywords IH]; intros acc.
  - exists []. cbn. rewrite app_nil_r. split; constructor.
  - cbn [fold_left search_step]. unfold entry_results. cbn [map filter fst snd].
    destruct (contains (lower k) (lower (sentence e))) eqn:Hk.
    + destruct (bold_keyword_total k (sentence e)) as [bold Hb]. rewrite Hb.
      destruct (IH (acc ++ [ {| keyword := k; result_page := page_number e;
                                result_sentence := bold |} ])) as [added [Hf Ha]].
      eexists. rewrite Hf, <- app_assoc. split; [reflexivity|].
      constructor; [|exact Ha]. repeat split. exact Hb.
    + destruct (IH acc) as [added [Hf Ha]]. exists added. split; assumption.
Qed.

Lemma outer_loop (index : list entry) (keywords : list str) :
  forall acc : list result,
  exists added,
    fold_left (fun all_data e => fold_left (search_step e) keywords all_data)
              index (Some acc) = Some (acc ++ added)
    /\ Forall2 result_of added (matching_pairs index keywords).
Proof.
  induction index as [|e index IH]; intros acc.
  - exists []. cbn. rewrite app_nil_r. split; constructor.
  - cbn [fold_left]. destruct (inner_loop e keywords acc) as [a1 [H1 F1]].
    rewrite H1. destruct (IH (acc ++ a1)) as [a2 [H2 F2]].
    exists (a1 ++ a2). rewrite H2, app_assoc. split; [reflexivity|].
    rewrite matching_pairs_cons. now apply Forall2_app.
Qed.

(** The search never raises, and its results are, one for one and in order,
    the results of the matching pairs. *)
Lemma search_spec (index : list entry) (keywords : list str) :
  exists found,
    search_keywords_in_index index keywords = Some found
    /\ Forall2 result_of found (matching_pairs index keywords).
Proof.
  destruct (outer_loop index keywords []) as [added [H F]].
  exists added. split; [exact H | exact F].
Qed.

(** ** The containment test *)

Lemma startswith_prefix (p s : str) :
  startswith p s = true <-> exists post, s = p ++ post.
Proof.
  revert s. induction p as [|a p IH]; intros s.
  - cbn. split; [intros _; now exists s | reflexivity].
  - destruct s as [|b s]; cbn.
    + split; [discriminate | intros [post H]; discriminate].
    + rewrite andb_true_iff, IH, Ascii.eqb_eq. split.
      * intros [-> [post ->]]. now exists post.
      * intros [post H]. inversion H; subst. split; [reflexivity | now exists post].
Qed.

Lemma contains_slice (sub s : str) :
  contains sub s = true <-> exists pre post, s = pre ++ sub ++ post.
Proof.
  induction s as [|c s IH].
  - cbn. rewrite orb_false_r, startswith_prefix. split.
    + intros [post H]. now exists [], post.
    + intros [pre [post H]]. destruct pre; [now exists post|discriminate].
  - cbn [contains]. rewrite orb_true_iff, IH, startswith_prefix. split.
    + intros [[post H]|[pre [post H]]].
      * now exists [], post.
      * exists (c :: pre), post. now rewrite H.
    + intros [pre [post H]]. destruct pre as [|d pre].
      * left. now exists post.
      * right. inversion H; subst. now exists pre, post.
Qed.

Lemma lower_app_inv (s a b : str) :
  lower s = a ++ b -> exists s1 s2, s = s1 ++ s2 /\ lower s1 = a /\ lower s2 = b.
Proof.
  unfold lower. intros H. apply map_eq_app in H.
  destruct H as [s1 [s2 [H1 [H2 H3]]]]. now exists s1, s2.
Qed.

(** The test of the search, [keyword.lower() in sentence.lower()], holds
    exactly when the keyword occurs in the sentence up to case. *)
Lemma contains_lower_iff (kw s : str) :
  contains (lower kw) (lower s) = true <-> occurs_ci kw s.
Proof.
  rewrite contains_slice. unfold occurs_ci. split.
  - intros [pre [post H]].
    apply lower_app_inv in H as [s1 [s' [-> [H1 H']]]].
    apply lower_app_inv in H' as [s2 [s3 [-> [H2 H3]]]].
    now exists s1, s2, s3.
  - intros [pre [mid [post [-> H]]]].
    exists (lower pre), (lower post). unfold lower in *.
    now rewrite !map_app, H.
Qed.

Lemma NoDup_list_prod {A B : Type} (l : list A) (l' : list B) :
  NoDup l -> NoDup l' -> NoDup (list_prod l l').
Proof.
  intros Hl Hl'. induction Hl as [|x l Hx _ IH]; [constructor|].
  cbn [list_prod]. apply NoDup_app.
  - clear -Hl'. induction Hl' as [|y l' Hy _ IH']; [constructor|].
    cbn [map]. constructor; [|exact IH'].
    intros Hin. apply in_map_iff in Hin as [y' [E Hy']]. now inversion E; subst.
  - exact IH.
  - intros [a b] H1 H2. apply in_map_iff in H1 as [y [E _]]. inversion E; subst.
    apply in_prod_iff in H2 as [H2 _]. contradiction.
Qed.

Lemma In_matching_pairs (index : list entry) (keywords : list str) (e : entry) (k : str) :
  In (e, k) (matching_pairs index keywords)
  <-> In e index /\ In k keywords /\ occurs_ci k (sentence e).
Proof.
  unfold matching_pairs. rewrite filter_In, in_prod_iff. cbn [fst snd].
  rewrite contains_lower_iff. tauto.
Qed.

(** ** Occurrences of a keyword *)

Lemma occurrences_from_skip (kw : str) (s : str) :
  forall skip pos,
    occurrences_from kw skip pos s
    = occurrences_from kw 0 (pos + skip) (skipn skip s).
Proof.
  induction s as [|c s IH]; intros skip pos.
  - now rewrite skipn_nil.
  - destruct skip as [|k].
    + now rewrite Nat.add_0_r.
    + cbn [occurrences_from skipn]. rewrite IH. f_equal. lia.
Qed.

Lemma occurrences_from_ge (kw : str) (s : str) :
  forall skip pos p,
    In p (occurrences_from kw skip pos s) -> pos + skip <= p.
Proof.
  induction s as [|c s IH]; intros skip pos p H; [destruct H|].
  cbn [occurrences_from] in H. destruct skip as [|k].
  - destruct (startswith (lower kw) (lower (c :: s))).
    + destruct H as [->|H]; [lia|]. apply IH in H. lia.
    + apply IH in H. lia.
  - apply IH in H. lia.
Qed.

Lemma occurrences_from_hit (kw : str) (c : ascii) (s : str) (pos : nat) :
  kw <> [] ->
  startswith (lower kw) (lower (c :: s)) = true ->
  occurrences_from kw 0 pos (c :: s)
  = pos :: occurrences_from kw 0 (pos + length kw) (skipn (length kw) (c :: s)).
Proof.
  intros Hkw Hsw. cbn [occurrences_from]. rewrite Hsw, occurrences_from_skip.
  destruct kw as [|a kw]; [congruence|]. cbn [length].
  replace (S (length kw) - 1) with (length kw) by lia.
  cbn [skipn]. do 2 f_equal. lia.
Qed.

Lemma wrap_at_cons (len : nat) (starts : list nat) (pos : nat) (c : ascii) (s : str) :
  (forall p, In p starts -> S pos <= p) ->
  wrap_at len starts pos (c :: s) = c :: wrap_at len starts (S pos) s.
Proof.
  intros H. destruct starts as [|p starts]; [reflexivity|].
  assert (Hp : S pos <= p) by (apply H; now left).
  cbn [wrap_at]. replace (p - pos) with (S (p - S pos)) by lia.
  reflexivity.
Qed.

Lemma wrap_at_length (len : nat) (starts : list nat) :
  forall pos s, length (wrap_at len starts pos s) = length s + 7 * length starts.
Proof.
  induction starts as [|p starts IH]; intros pos s; [cbn; lia|].
  cbn [wrap_at]. rewrite !length_app, IH.
  pose proof (f_equal (@length ascii) (firstn_skipn (p - pos) s)) as E1.
  pose proof (f_equal (@length ascii) (firstn_skipn len (skipn (p - pos) s))) as E2.
  rewrite length_app in E1, E2. rewrite skipn_skipn in E2.
  replace (p - pos + len) with (len + (p - pos)) by lia.
  cbn [length py list_ascii_of_string]. lia.
Qed.

(** Under a non-empty literal pattern the loop wraps the occurrences found
    left to right, and nothing else. *)
Lemma sub_pieces_occurrences (kw : str) (fuel : nat) :
  kw <> [] ->
  forall s pos,
    2 * length s + 2 <= fuel ->
    option_map with_markup (Re.sub_pieces fuel (bold_regex kw) false s)
    = Some (wrap_at (length kw) (occurrences_from kw 0 pos s) pos s).
Proof.
  intros Hkw. induction fuel as [|fuel IH]; intros s pos Hf; [lia|].
  cbn [Re.sub_pieces bold_regex Re.ignorecase Re.group1].
  rewrite match_here_literal. fold (bold_regex kw).
  destruct (startswith (lower kw) (lower s)) eqn:Hsw.
  - destruct s as [|c s].
    { destruct kw; [congruence | discriminate]. }
    assert (Hn : Re.is_nil (firstn (length kw) (c :: s)) = false).
    { destruct kw; [congruence | reflexivity]. }
    rewrite Hn. cbn [andb].
    rewrite occurrences_from_hit by assumption.
    specialize (IH (skipn (length kw) (c :: s)) (pos + length kw)).
    destruct (Re.sub_pieces fuel (bold_regex kw) false (skipn (length kw) (c :: s)))
      as [ps|] eqn:E.
    + cbn [option_map with_markup flat_map] in *. fold (with_markup ps).
      cbn [wrap_at]. rewrite Nat.sub_diag. cbn [firstn skipn app Nat.add].
      assert (Hl : 2 * length (skipn (length kw) (c :: s)) + 2 <= fuel).
      { rewrite length_skipn. destruct kw; [congruence|]. cbn [length] in *. lia. }
      specialize (IH Hl). inversion IH as [IH']. rewrite IH'.
      rewrite <- !app_assoc. reflexivity.
    + exfalso.
      assert (Hl : 2 * length (skipn (length kw) (c :: s)) + 2 <= fuel).
      { rewrite length_skipn. destruct kw; [congruence|]. cbn [length] in *. lia. }
      specialize (IH Hl). discriminate.
  - destruct s as [|c s]; [reflexivity|].
    assert (Hl : 2 * length s + 2 <= fuel) by (cbn [length] in Hf; lia).
    specialize (IH s (S pos) Hl).
    destruct (Re.sub_pieces fuel (bold_regex kw) false s) as [ps|]; [|discriminate].
    cbn [option_map with_markup flat_map app] in *. fold (with_markup ps).
    inversion IH as [IH']. rewrite IH'.
    cbn [occurrences_from]. rewrite Hsw. rewrite wrap_at_cons; [reflexivity|].
    intros p Hp. apply occurrences_from_ge in Hp. lia.
Qed.

(** The chosen occurrences are occurrences, they do not overlap, and an
    occurrence that was not chosen starts inside a chosen one. *)
Lemma occurrences_from_sound (kw : str) (s : str) :
  forall skip pos p,
    In p (occurrences_from kw skip pos s) ->
    startswith (lower kw) (lower (skipn (p - pos) s)) = true.
Proof.
  induction s as [|c s IH]; intros skip pos p H; [destruct H|].
  assert (Hge := occurrences_from_ge _ _ _ _ _ H).
  cbn [occurrences_from] in H. destruct skip as [|k].
  - destruct (startswith (lower kw) (lower (c :: s))) eqn:Hsw.
    + destruct H as [->|H].
      * now rewrite Nat.sub_diag.
      * assert (Hge' := occurrences_from_ge _ _ _ _ _ H).
        replace (p - pos) with (S (p - S pos)) by lia. cbn [skipn]. eapply IH, H.
    + assert (Hge' := occurrences_from_ge _ _ _ _ _ H).
      replace (p - pos) with (S (p - S pos)) by lia. cbn [skipn]. eapply IH, H.
  - assert (Hge' := occurrences_from_ge _ _ _ _ _ H).
    replace (p - pos) with (S (p - S pos)) by lia. cbn [skipn]. eapply IH, H.
Qed.

Lemma occurrences_from_apart (kw : str) (s : str) :
  kw <> [] ->
  forall skip pos,
    StronglySorted (fun p q => p + length kw <= q) (occurrences_from kw skip pos s).
Proof.
  intros Hkw. induction s as [|c s IH]; intros skip pos; [constructor|].
  cbn [occurrences_from]. destruct skip as [|k]; [|apply IH].
  destruct (startswith (lower kw) (lower (c :: s))); [|apply IH].
  constructor; [apply IH|]. apply Forall_forall. intros q Hq.
  apply occurrences_from_ge in Hq. destruct kw; [congruence|]. cbn [length] in *. lia.
Qed.

Lemma occurrences_from_complete (kw : str) (s : str) :
  kw <> [] ->
  forall skip pos q,
    skip <= q ->
    startswith (lower kw) (lower (skipn q s)) = true ->
    exists p, In p (occurrences_from kw skip pos s)
              /\ p <= pos + q < p + length kw.
Proof.
  intros Hkw. assert (Hlen : 0 < length kw) by (destruct kw; [congruence | cbn; lia]).
  induction s as [|c s IH]; intros skip pos q Hq Hsw.
  { rewrite skipn_nil in Hsw. destruct kw; [congruence | discriminate]. }
  cbn [occurrences_from]. destruct skip as [|k].
  - destruct (startswith (lower kw) (lower (c :: s))) eqn:H0.
    + destruct (Nat.lt_ge_cases q (length kw)) as [Hlt|Hge].
      * exists pos. split; [now left | lia].
      * destruct q as [|q]; [lia|]. cbn [skipn] in Hsw.
        destruct (IH (length kw - 1) (S pos) q) as [p [Hin Hp]]; [lia|assumption|].
        exists p. split; [now right | lia].
    + destruct q as [|q]; [cbn [skipn] in Hsw; congruence|]. cbn [skipn] in Hsw.
      destruct (IH 0 (S pos) q) as [p [Hin Hp]]; [lia|assumption|].
      exists p. split; [assumption | lia].
  - destruct q as [|q]; [lia|]. cbn [skipn] in Hsw.
    destruct (IH k (S pos) q) as [p [Hin Hp]]; [lia|assumption|].
    exists p. split; [assumption | lia].
Qed.

(** ** The empty keyword *)

Lemma sub_pieces_empty_pattern (s : str) :
  forall fuel,
    2 * length s + 2 <= fuel ->
    Re.sub_pieces fuel (bold_regex []) false s
    = Some (Re.Found [] :: flat_map (fun c => [Re.Slice c; Re.Found []]) s).
Proof.
  induction s as [|c s IH]; intros fuel Hf.
  - destruct fuel as [|[|fuel]]; [cbn in Hf; lia | cbn in Hf; lia | reflexivity].
  - destruct fuel as [|[|fuel]]; [cbn in Hf; lia | cbn in Hf; lia |].
    cbn [length] in Hf.
    change (Re.sub_pieces (S (S fuel)) (bold_regex []) false (c :: s))
      with (option_map (cons (Re.Found []))
              (option_map (cons (Re.Slice c))
                 (Re.sub_pieces fuel (bold_regex []) false s))).
    rewrite IH by lia. reflexivity.
Qed.

Lemma empty_highlight_eq (s : str) :
  with_markup (Re.Found [] :: flat_map (fun c => [Re.Slice c; Re.Found []]) s)
  = empty_highlight s.
Proof.
  unfold empty_highlight.
  change (with_markup (Re.Found [] :: ?l)) with (py "<b></b>" ++ with_markup l).
  induction s as [|c s IH]; [reflexivity|].
  cbn [flat_map app].
  change (with_markup (Re.Slice c :: Re.Found [] :: ?l))
    with (c :: py "<b></b>" ++ with_markup l).
  rewrite IH, <- !app_assoc. reflexivity.
Qed.

(** The empty keyword passes the test on every sentence, and its highlight
    puts an empty pair at every position. *)
Lemma bold_keyword_empty (s : str) :
  contains (lower []) (lower s) = true
  /\ bold_keyword [] s = Some (empty_highlight s).
Proof.
  split; [now destruct s|].
  rewrite bold_keyword_eq, sub_pieces_empty_pattern by (unfold Re.sub_fuel; lia).
  cbn [option_map]. now rewrite empty_highlight_eq.
Qed.

Lemma results_of_empty_keyword (found : list result) (pairs : list (entry * str)) :
  Forall2 result_of found pairs ->
  filter for_empty_keyword found
  = flat_map (fun p => if Re.is_nil (snd p) then empty_keyword_results 1 (fst p) else [])
             pairs.
Proof.
  induction 1 as [|r [e k] found pairs [Hk [Hp Hb]] _ IH]; [reflexivity|].
  cbn [filter flat_map fst snd] in *. unfold for_empty_keyword at 1. rewrite Hk.
  destruct k as [|c k]; cbn [Re.is_nil app]; [|exact IH].
  destruct (bold_keyword_empty (sentence e)) as [_ Hb']. rewrite Hb' in Hb.
  injection Hb as Hb. rewrite <- IH. cbn [empty_keyword_results repeat app].
  f_equal. destruct r; cbn in *. now subst.
Qed.

Lemma empty_keyword_pairs (e : entry) (keywords : list str) :
  flat_map (fun p => if Re.is_nil (snd p) then empty_keyword_results 1 (fst p) else [])
           (entry_results e keywords)
  = empty_keyword_results (length (filter Re.is_nil keywords)) e.
Proof.
  unfold entry_results. induction keywords as [|k keywords IH]; [reflexivity|].
  cbn [map filter fst snd]. destruct k as [|c k].
  - destruct (bold_keyword_empty (sentence e)) as [Hc _]. rewrite Hc.
    cbn [flat_map fst snd Re.is_nil length]. now rewrite IH.
  - destruct (contains _ _); cbn [flat_map fst snd Re.is_nil app]; exact IH.
Qed.

(** ** Stripping the markers *)

Lemma strip_tags_other (c : ascii) (t : str) :
  c <> "<" -> strip_tags (c :: t) = c :: strip_tags t.
Proof. intros H. each_char c; try reflexivity. now elim H. Qed.

Lemma strip_tags_plain (m t : str) :
  ~ In "<" m -> strip_tags (m ++ t) = m ++ strip_tags t.
Proof.
  induction m as [|c m IH]; intros H; [reflexivity|].
  cbn [app]. rewrite strip_tags_other, IH; [reflexivity| |].
  - intros Hin. apply H. now right.
  - intros ->. apply H. now left.
Qed.

(** On a sentence without the character [<], dropping every [<b>] and
    [</b>] of the highlighted sentence drops the inserted markers and nothing
    else. *)
Lemma strip_tags_with_markup (pieces : list Re.piece) :
  ~ In "<" (without_markup pieces) ->
  strip_tags (with_markup pieces) = without_markup pieces.
Proof.
  unfold with_markup, without_markup.
  induction pieces as [|[c|m] pieces IH]; intros H; [reflexivity| |].
  - cbn [flat_map Re.covered app] in *. rewrite strip_tags_other, IH; [reflexivity| |].
    + intros Hin. apply H. now right.
    + intros ->. apply H. now left.
  - cbn [flat_map Re.covered] in *.
    change (py "<b>" ++ m ++ py "</b>") with ("<" :: "b" :: ">" :: m ++ py "</b>").
    cbn [app]. change (strip_tags ("<" :: "b" :: ">" :: ?t)) with (strip_tags t).
    rewrite <- app_assoc, strip_tags_plain.
    + change (strip_tags (py "</b>" ++ ?t)) with (strip_tags t).
      rewrite IH; [reflexivity|]. intros Hin. apply H, in_or_app. now right.
    + intros Hin. apply H, in_or_app. now left.
Qed.

(** ** Search: the claims *)

(** C5: for every index and keyword list the search returns (and never
    raises) exactly one result per pair of an entry and a keyword whose
    keyword occurs in the entry's sentence case-insensitively; the results
    stand in the order of the pairs, entries first and keywords second, so an
    entry matching two keywords gives two results; their number is the
    number of these pairs.  The pairs are taken with the positions of the
    entry and of the keyword in their lists; with no entry and no keyword
    repeated they are pairwise distinct. *)
Theorem search_one_result_per_matching_pair (index : list entry) (keywords : list str) :
  exists found,
    search_keywords_in_index index keywords = Some found
    /\ Forall2 result_of found (matching_pairs index keywords)
    /\ length found = length (matching_pairs index keywords)
    /\ (forall e k, In (e, k) (matching_pairs index keywords)
                    <-> In e index /\ In k keywords /\ occurs_ci k (sentence e))
    /\ (NoDup index -> NoDup keywords -> NoDup (matching_pairs index keywords)).
Proof.
  destruct (search_spec index keywords) as [found [Hs HF]].
  exists found. split; [exact Hs|]. split; [exact HF|].
  split; [exact (Forall2_length HF)|]. split.
  - intros e k. apply In_matching_pairs.
  - intros Hi Hk. apply NoDup_filter. now apply NoDup_list_prod.
Qed.

(** C2, as stated, fails: on an index of one entry the keyword list with the
    empty string alone gives one result, not none. *)
Lemma empty_keyword_gives_a_result :
  search_keywords_in_index [ {| page_number := 1; sentence := py "ab" |} ] [ [] ]
  = Some [ {| keyword := [];
              result_page := 1;
              result_sentence := py "<b></b>a<b></b>b<b></b>" |} ].
Proof. vm_compute. reflexivity. Qed.

(** C2, amended: the search never raises, and the empty keyword matches every
    entry: the results for the empty keyword are, entry by entry, one result
    for each time the empty string stands in the keyword list, with an empty
    highlight pair before every character of the sentence and one at its
    end. *)
Theorem search_empty_keyword (index : list entry) (keywords : list str) :
  exists found,
    search_keywords_in_index index keywords = Some found
    /\ filter for_empty_keyword found
       = flat_map (empty_keyword_results (length (filter Re.is_nil keywords))) index.
Proof.
  destruct (search_spec index keywords) as [found [Hs HF]].
  exists found. split; [exact Hs|].
  rewrite (results_of_empty_keyword _ _ HF). clear.
  induction index as [|e index IH]; [reflexivity|].
  rewrite matching_pairs_cons, flat_map_app, empty_keyword_pairs, IH.
  reflexivity.
Qed.

(** C7: the sentence of every result of the search is the join of the pieces
    of the substitution run on the sentence of an entry of the index, with
    the markers [<b>] and [</b>] put around the matched pieces; without these
    inserted markers the pieces give back the sentence of the entry exactly,
    every matched piece being the keyword up to case only, in the casing of
    the sentence.  When the sentence itself has no [<], dropping every [<b>]
    and [</b>] of the result gives it back too. *)
Theorem highlight_preserves_sentence (index : list entry) (keywords : list str) :
  exists found,
    search_keywords_in_index index keywords = Some found
    /\ Forall (fun r =>
         exists e pieces,
           In e index
           /\ In (keyword r) keywords
           /\ result_page r = page_number e
           /\ Re.sub_pieces (Re.sub_fuel (sentence e)) (bold_regex (keyword r))
                            false (sentence e) = Some pieces
           /\ result_sentence r = with_markup pieces
           /\ without_markup pieces = sentence e
           /\ (forall m, In (Re.Found m) pieces -> lower m = lower (keyword r))
           /\ (~ In "<" (sentence e) -> strip_tags (result_sentence r) = sentence e))
         found.
Proof.
  destruct (search_spec index keywords) as [found [Hs HF]].
  exists found. split; [exact Hs|].
  assert (Hin : forall p, In p (matching_pairs index keywords) ->
                          In (fst p) index /\ In (snd p) keywords).
  { intros [e k] H. apply In_matching_pairs in H. cbn. tauto. }
  clear Hs. revert HF Hin. generalize (matching_pairs index keywords) as pairs.
  intros pairs HF. induction HF as [|r [e k] found pairs [Hk [Hp Hb]] _ IH];
    intros Hin; constructor.
  - cbn [fst snd] in *.
    destruct (bold_keyword_pieces k (sentence e)) as [pieces [Hr [Hb' [Hc Hm]]]].
    rewrite Hb in Hb'. injection Hb' as Hb'.
    destruct (Hin (e, k) (or_introl eq_refl)) as [He Hk'].
    exists e, pieces. rewrite Hk.
    split; [exact He|]. split; [exact Hk'|]. split; [exact Hp|].
    split; [exact Hr|]. split; [exact Hb'|]. split; [exact Hc|]. split; [exact Hm|].
    intros Hlt. rewrite Hb', <- Hc. apply strip_tags_with_markup. now rewrite Hc.
  - apply IH. intros p Hp'. apply Hin. now right.
Qed.

(** C10: for a non-empty keyword the pattern built from it compiles to the
    characters of the keyword as literals, whatever they mean in a pattern;
    the highlighted sentence is the sentence with each of the non-overlapping
    occurrences of the keyword, found left to right without regard to case,
    wrapped in its own pair, so it is longer than the sentence by one pair
    (seven characters) per occurrence; the chosen starts are occurrences,
    stand at least a keyword apart, and any other occurrence begins inside a
    chosen one. *)
Theorem highlight_wraps_occurrences (kw s : str) :
  kw <> [] ->
  Re.compile (bold_pattern kw) true = Some (bold_regex kw)
  /\ bold_keyword kw s = Some (wrap_at (length kw) (occurrences kw s) 0 s)
  /\ length (wrap_at (length kw) (occurrences kw s) 0 s)
     = length s + 7 * length (occurrences kw s)
  /\ Forall (fun p => startswith (lower kw) (lower (skipn p s)) = true)
            (occurrences kw s)
  /\ StronglySorted (fun p q => p + length kw <= q) (occurrences kw s)
  /\ (forall q, startswith (lower kw) (lower (skipn q s)) = true ->
                exists p, In p (occurrences kw s) /\ p <= q < p + length kw).
Proof.
  intros Hkw. split; [apply compile_bold_pattern|]. split.
  { rewrite bold_keyword_eq. apply sub_pieces_occurrences; [assumption|].
    unfold Re.sub_fuel. lia. }
  split; [apply wrap_at_length|]. split.
  { apply Forall_forall. intros p Hp.
    apply occurrences_from_sound in Hp. now rewrite Nat.sub_0_r in Hp. }
  split; [now apply occurrences_from_apart|].
  intros q Hq.
  destruct (occurrences_from_complete kw s Hkw 0 0 q (Nat.le_0_l q) Hq) as [p [Hin Hp]].
  exists p. split; [exact Hin | exact Hp].
Qed.

Lemma highlight_wraps_occurrences_witness :
  py "a.c" <> []
  /\ bold_keyword (py "a.c") (py "abc A.C a.c") = Some (py "abc <b>A.C</b> <b>a.c</b>").
Proof.
  split; [discriminate|].
  exact (proj1 (proj2 (highlight_wraps_occurrences (py "a.c") (py "abc A.C a.c")
                         ltac:(discriminate)))).
Defined.

(** ** The stable sort by page number *)

Lemma insert_by_page_In (x y : entry) (l : list entry) :
  In y (insert_by_page x l) <-> y = x \/ In y l.
Proof.
  induction l as [|z l IH]; cbn.
  - intuition (auto; congruence).
  - destruct (page_number x <=? page_number z)%Z; cbn; [intuition congruence|].
    rewrite IH. intuition congruence.
Qed.

Lemma insert_by_page_sorted (x : entry) (l : list entry) :
  StronglySorted page_le l -> StronglySorted page_le (insert_by_page x l).
Proof.
  induction 1 as [|z l Hs IH Hz]; cbn.
  - constructor; constructor.
  - destruct (page_number x <=? page_number z)%Z eqn:E.
    + apply Z.leb_le in E. constructor; [now constructor|].
      constructor; [exact E|]. rewrite Forall_forall in *. intros y Hy.
      unfold page_le in *. specialize (Hz y Hy). lia.
    + apply Z.leb_gt in E. constructor; [exact IH|].
      rewrite Forall_forall in *. intros y Hy. apply insert_by_page_In in Hy.
      destruct Hy as [->|Hy]; [unfold page_le; lia | now apply Hz].
Qed.

Lemma sort_by_page_sorted (l : list entry) :
  StronglySorted page_le (sort_by_page l).
Proof.
  induction l as [|x l IH]; [constructor|]. now apply insert_by_page_sorted.
Qed.

(** Stability: the entries of one page keep their order. *)
Lemma insert_by_page_filter (k : Z) (x : entry) (l : list entry) :
  filter (on_page k) (insert_by_page x l) = filter (on_page k) (x :: l).
Proof.
  induction l as [|z l IH]; [reflexivity|]. cbn [insert_by_page].
  destruct (page_number x <=? page_number z)%Z eqn:E; [reflexivity|].
  apply Z.leb_gt in E. cbn [filter] in *. rewrite IH. unfold on_page.
  destruct (page_number x =? k)%Z eqn:Ex; [|reflexivity].
  apply Z.eqb_eq in Ex.
  destruct (page_number z =? k)%Z eqn:Ez; [|reflexivity].
  apply Z.eqb_eq in Ez. lia.
Qed.

Lemma sort_by_page_filter (k : Z) (l : list entry) :
  filter (on_page k) (sort_by_page l) = filter (on_page k) l.
Proof.
  induction l as [|x l IH]; [reflexivity|].
  cbn [sort_by_page fold_right]. fold (sort_by_page l).
  rewrite insert_by_page_filter. cbn [filter]. now rewrite IH.
Qed.

Lemma filter_on_page_nil (l : list entry) :
  (forall k, filter (on_page k) l = []) -> l = [].
Proof.
  destruct l as [|x l]; [reflexivity|]. intros H.
  specialize (H (page_number x)). cbn in H. unfold on_page in H.
  now rewrite Z.eqb_refl in H.
Qed.

(** A list sorted by page is determined by its entries page by page. *)
Lemma sorted_by_pages_unique (l1 : list entry) :
  forall l2,
    StronglySorted page_le l1 -> StronglySorted page_le l2 ->
    (forall k, filter (on_page k) l1 = filter (on_page k) l2) ->
    l1 = l2.
Proof.
  induction l1 as [|x l1 IH]; intros l2 H1 H2 Hf.
  - symmetry. apply filter_on_page_nil. intros k. now rewrite <- Hf.
  - destruct l2 as [|y l2].
    { apply filter_on_page_nil. exact Hf. }
    apply StronglySorted_inv in H1 as [H1 Hx].
    apply StronglySorted_inv in H2 as [H2 Hy].
    rewrite Forall_forall in Hx, Hy.
    assert (Hxy : page_number x = page_number y).
    { apply Z.le_antisymm.
      - assert (Hin : In y (filter (on_page (page_number y)) (x :: l1))).
        { rewrite Hf. cbn. unfold on_page at 1. rewrite Z.eqb_refl. now left. }
        apply filter_In in Hin as [[<-|Hin] _]; [lia | apply (Hx _ Hin)].
      - assert (Hin : In x (filter (on_page (page_number x)) (y :: l2))).
        { rewrite <- Hf. cbn. unfold on_page at 1. rewrite Z.eqb_refl. now left. }
        apply filter_In in Hin as [[<-|Hin] _]; [lia | apply (Hy _ Hin)]. }
    assert (Hhead := Hf (page_number x)). cbn [filter] in Hhead.
    assert (Ex : on_page (page_number x) x = true) by apply Z.eqb_refl.
    assert (Ey : on_page (page_number x) y = true)
      by (unfold on_page; rewrite Hxy; apply Z.eqb_refl).
    rewrite Ex, Ey in Hhead. injection Hhead as -> Htail. f_equal. apply IH; [assumption..|].
    intros k. specialize (Hf k). cbn [filter] in Hf.
    destruct (on_page k y); [now injection Hf | exact Hf].
Qed.

(** ** The run of the build *)

(** The first loop leaves the index as it is; when no extraction raises,
    every future it creates holds the value of its task. *)
Lemma submit_pages_run (pages : list (option str)) :
  forall page_num index,
    submit_pages page_num pages index
    = (option_map (map Some) (submitted page_num pages), index).
Proof.
  induction pages as [|[text|] pages IH]; intros page_num index; try reflexivity.
  cbn [submit_pages submitted]. unfold bind, call at 1. rewrite IH.
  destruct (submitted (S page_num) pages); reflexivity.
Qed.

(** On futures that all hold a value the second loop runs to its end. *)
Lemma collect_run (values : list (list entry)) (completion : list nat) :
  forall index,
    collect (map Some values) completion index
    = (Some tt, index ++ flat_map (fun i => nth i values []) completion).
Proof.
  induction completion as [|i completion IH]; intros index.
  - cbn. now rewrite app_nil_r.
  - cbn [collect flat_map]. unfold bind, call, extend, future. cbv beta.
    rewrite (map_nth (@Some (list entry)) values [] i), IH, app_assoc.
    reflexivity.
Qed.

(** A future whose task raised would stop the second loop at its turn, with
    the entries collected before it left in the index.  No future of
    [submit_pages] is in that state. *)
Lemma collect_stops_at_raised (futures : list future) (i : nat) (rest : list nat)
  (index : list entry) :
  nth i futures (Some []) = None ->
  collect futures (i :: rest) index = (None, index).
Proof. intros H. cbn [collect]. unfold bind, call. now rewrite H. Qed.

(** What the build returns: nothing when the document does not open or a
    page cannot be read, else the collected entries, sorted. *)
Lemma preprocess_pdf_run (opened : option document) (completion : list nat) :
  preprocess_pdf opened completion
  = match opened with
    | None => []
    | Some pages =>
        match submitted 0 pages with
        | None => []
        | Some futures =>
            sort_by_page (flat_map (fun i => nth i futures []) completion)
        end
    end.
Proof.
  unfold preprocess_pdf. destruct opened as [pages|]; [|reflexivity].
  unfold bind at 1, call. unfold bind at 1. rewrite submit_pages_run.
  destruct (submitted 0 pages) as [futures|]; [|reflexivity].
  cbn [option_map]. unfold bind. rewrite collect_run. reflexivity.
Qed.

Lemma submitted_fails (pages : list (option str)) :
  forall page_num, In None pages -> submitted page_num pages = None.
Proof.
  induction pages as [|[text|] pages IH]; intros page_num H.
  - destruct H.
  - destruct H as [H|H]; [discriminate|]. cbn. now rewrite IH.
  - reflexivity.
Qed.

Lemma extract_sentences_page (page_num : Z) (text : str) :
  Forall (fun e => page_number e = (page_num + 1)%Z) (extract_sentences page_num text).
Proof.
  unfold extract_sentences. apply Forall_forall. intros e H.
  apply in_map_iff in H as [s [<- _]]. reflexivity.
Qed.

(** Every entry of the future of index [i] carries the page number of its
    page. *)
Lemma submitted_pages (pages : list (option str)) :
  forall page_num futures i,
    submitted page_num pages = Some futures ->
    Forall (fun e => page_number e = (Z.of_nat (page_num + i) + 1)%Z)
           (nth i futures []).
Proof.
  induction pages as [|[text|] pages IH]; intros page_num futures i H.
  - injection H as <-. destruct i; constructor.
  - cbn in H. destruct (submitted (S page_num) pages) as [fs|] eqn:E; [|discriminate].
    injection H as <-. destruct i as [|i]; cbn [nth].
    + rewrite Nat.add_0_r. apply extract_sentences_page.
    + replace (page_num + S i) with (S page_num + i) by lia. now apply IH.
  - discriminate.
Qed.

(** ** Collecting in any order *)

Lemma Permutation_filter_compat {A : Type} (f : A -> bool) (l l' : list A) :
  Permutation l l' -> Permutation (filter f l) (filter f l').
Proof.
  induction 1 as [|x l l' _ IH|x y l|l l' l'' _ IH1 _ IH2]; cbn.
  - constructor.
  - destruct (f x); [now constructor | exact IH].
  - destruct (f x), (f y); try apply Permutation_refl. apply perm_swap.
  - now apply Permutation_trans with (filter f l').
Qed.

(** A test that holds for one value at most selects the same sublist from
    two arrangements of a duplicate-free list. *)
Lemma filter_unique_perm (f : nat -> bool) (l l' : list nat) :
  (forall i j, f i = true -> f j = true -> i = j) ->
  NoDup l -> Permutation l l' ->
  filter f l = filter f l'.
Proof.
  intros Hu Hnd Hp.
  assert (Hshort : forall m, NoDup m -> (forall i, In i m -> f i = true) ->
                             m = [] \/ exists i, m = [i]).
  { intros [|i [|j m]] Hm Hall; [now left | right; now exists i |].
    exfalso. apply NoDup_cons_iff in Hm as [Hni _]. apply Hni. left.
    apply Hu; apply Hall; cbn; auto. }
  assert (Hpf := Permutation_filter_compat f _ _ Hp).
  destruct (Hshort (filter f l)) as [E|[i E]].
  - now apply NoDup_filter.
  - intros i Hi. now apply filter_In in Hi.
  - rewrite E in *. now apply Permutation_nil in Hpf.
  - rewrite E in *. now apply Permutation_length_1_inv in Hpf.
Qed.

Lemma filter_flat_map_pages (futures : list (list entry)) (completion : list nat) (k : Z) :
  (forall i, Forall (fun e => page_number e = (Z.of_nat i + 1)%Z) (nth i futures [])) ->
  filter (on_page k) (flat_map (fun i => nth i futures []) completion)
  = flat_map (fun i => nth i futures [])
             (filter (fun i => (Z.of_nat i + 1 =? k)%Z) completion).
Proof.
  intros Hp. induction completion as [|i completion IH]; [reflexivity|].
  cbn [flat_map filter]. rewrite filter_app, IH.
  assert (Hi : filter (on_page k) (nth i futures [])
               = if (Z.of_nat i + 1 =? k)%Z then nth i futures [] else []).
  { specialize (Hp i). induction Hp as [|e l He _ IHl].
    - now destruct (Z.of_nat i + 1 =? k)%Z.
    - cbn [filter]. unfold on_page at 1. rewrite He, IHl.
      now destruct (Z.of_nat i + 1 =? k)%Z. }
  rewrite Hi. destruct (Z.of_nat i + 1 =? k)%Z; reflexivity.
Qed.

(** Whatever the order in which the tasks complete, the build returns the
    same index. *)
Lemma preprocess_pdf_any_schedule (opened : option document) (c1 c2 : list nat) :
  schedule (total_pages opened) c1 ->
  schedule (total_pages opened) c2 ->
  preprocess_pdf opened c1 = preprocess_pdf opened c2.
Proof.
  intros H1 H2. rewrite !preprocess_pdf_run.
  destruct opened as [pages|]; [|reflexivity].
  destruct (submitted 0 pages) as [futures|] eqn:E; [|reflexivity].
  apply sorted_by_pages_unique; try apply sort_by_page_sorted.
  intros k. rewrite !sort_by_page_filter.
  assert (Hp : forall i, Forall (fun e => page_number e = (Z.of_nat i + 1)%Z)
                                (nth i futures [])).
  { intros i. exact (submitted_pages pages 0 futures i E). }
  rewrite !filter_flat_map_pages by exact Hp. f_equal.
  unfold schedule in *. apply filter_unique_perm.
  - intros i j Hi Hj. apply Z.eqb_eq in Hi, Hj. lia.
  - apply (Permutation_NoDup (Permutation_sym H1)), seq_NoDup.
  - apply Permutation_trans with (seq 0 (total_pages (Some pages)));
      [exact H1 | now apply Permutation_sym].
Qed.

(** ** The index in page order *)

Lemma StronglySorted_app_pages (l1 l2 : list entry) :
  StronglySorted page_le l1 -> StronglySorted page_le l2 ->
  (forall a b, In a l1 -> In b l2 -> page_le a b) ->
  StronglySorted page_le (l1 ++ l2).
Proof.
  intros H1 H2 H. induction H1 as [|x l1 Hs IH Hx]; [exact H2|].
  cbn [app]. constructor.
  - apply IH. intros a b Ha. apply H. now right.
  - apply Forall_app. split; [exact Hx|].
    apply Forall_forall. intros b Hb. apply H; [now left | exact Hb].
Qed.

Lemma same_page_sorted (k : Z) (l : list entry) :
  Forall (fun e => page_number e = k) l -> StronglySorted page_le l.
Proof.
  induction 1 as [|x l Hx Hl IH]; constructor; [exact IH|].
  apply Forall_forall. intros y Hy. rewrite Forall_forall in Hl.
  unfold page_le. rewrite Hx, (Hl y Hy). apply Z.le_refl.
Qed.

Lemma submitted_later_pages (pages : list (option str)) :
  forall page_num values e,
    submitted page_num pages = Some values ->
    In e (concat values) -> (Z.of_nat page_num + 1 <= page_number e)%Z.
Proof.
  induction pages as [|[text|] pages IH]; intros page_num values e H Hin.
  - injection H as <-. destruct Hin.
  - cbn in H. destruct (submitted (S page_num) pages) as [vs|] eqn:E; [|discriminate].
    injection H as <-. cbn [concat] in Hin. apply in_app_or in Hin as [Hin|Hin].
    + pose proof (extract_sentences_page (Z.of_nat page_num) text) as Hp.
      rewrite Forall_forall in Hp. rewrite (Hp e Hin). apply Z.le_refl.
    + specialize (IH _ _ _ E Hin). lia.
  - discriminate.
Qed.

Lemma submitted_sorted (pages : list (option str)) :
  forall page_num values,
    submitted page_num pages = Some values ->
    StronglySorted page_le (concat values).
Proof.
  induction pages as [|[text|] pages IH]; intros page_num values H.
  - injection H as <-. constructor.
  - cbn in H. destruct (submitted (S page_num) pages) as [vs|] eqn:E; [|discriminate].
    injection H as <-. cbn [concat]. apply StronglySorted_app_pages.
    + apply (same_page_sorted (Z.of_nat page_num + 1)), extract_sentences_page.
    + exact (IH _ _ E).
    + intros a b Ha Hb. pose proof (extract_sentences_page (Z.of_nat page_num) text) as Hp.
      rewrite Forall_forall in Hp. pose proof (submitted_later_pages _ _ _ _ E Hb).
      unfold page_le. rewrite (Hp a Ha). lia.
  - discriminate.
Qed.

Lemma submitted_length (pages : list (option str)) :
  forall page_num values,
    submitted page_num pages = Some values -> length values = length pages.
Proof.
  induction pages as [|[text|] pages IH]; intros page_num values H.
  - now injection H as <-.
  - cbn in H. destruct (submitted (S page_num) pages) as [vs|] eqn:E; [|discriminate].
    injection H as <-. cbn. now rewrite (IH _ _ E).
  - discriminate.
Qed.

Lemma flat_map_nth_seq (values : list (list entry)) :
  flat_map (fun i => nth i values []) (seq 0 (length values)) = concat values.
Proof.
  induction values as [|v values IH]; [reflexivity|].
  cbn [length seq flat_map nth concat]. f_equal.
  rewrite <- seq_shift, flat_map_concat_map, map_map, <- flat_map_concat_map.
  exact IH.
Qed.

Lemma sort_by_page_of_sorted (l : list entry) :
  StronglySorted page_le l -> sort_by_page l = l.
Proof.
  intros H. apply sorted_by_pages_unique; [apply sort_by_page_sorted | exact H |].
  intros k. apply sort_by_page_filter.
Qed.

(** When every page is read, the index is the segmentation of the pages one
    after the other, in page order, whatever the order of completion. *)
Lemma preprocess_pdf_page_order (pages : list (option str)) (completion : list nat)
  (values : list (list entry)) :
  submitted 0 pages = Some values ->
  schedule (length pages) completion ->
  preprocess_pdf (Some pages) completion = concat values.
Proof.
  intros Hv Hc.
  rewrite (preprocess_pdf_any_schedule (Some pages) completion (seq 0 (length pages)));
    [|exact Hc|apply Permutation_refl].
  rewrite preprocess_pdf_run, Hv, <- (submitted_length _ _ _ Hv), flat_map_nth_seq.
  apply sort_by_page_of_sorted. exact (submitted_sorted _ _ _ Hv).
Qed.

(** ** The build: the claims *)

(** C1: for every document, two builds whose tasks complete in any two
    orders (every task completing once in each) return the same index, entry
    for entry and in order; in particular the build of any pool equals the
    build of a pool of one worker, whose tasks complete as submitted. *)
Theorem build_deterministic (opened : option document) (c1 c2 : list nat) :
  schedule (total_pages opened) c1 ->
  schedule (total_pages opened) c2 ->
  preprocess_pdf opened c1 = preprocess_pdf opened c2
  /\ preprocess_pdf opened c1
     = preprocess_pdf opened (one_worker (total_pages opened)).
Proof.
  intros H1 H2. split.
  - now apply preprocess_pdf_any_schedule.
  - apply preprocess_pdf_any_schedule; [exact H1 | apply Permutation_refl].
Qed.

Lemma build_deterministic_witness :
  schedule 2 [1; 0]%nat /\ schedule 2 [0; 1]%nat
  /\ preprocess_pdf (Some two_pages) [1; 0]%nat
     = preprocess_pdf (Some two_pages) [0; 1]%nat.
Proof.
  assert (H1 : schedule (total_pages (Some two_pages)) [1; 0]%nat) by apply perm_swap.
  assert (H2 : schedule (total_pages (Some two_pages)) [0; 1]%nat) by apply Permutation_refl.
  split; [exact H1|]. split; [exact H2|].
  exact (proj1 (build_deterministic (Some two_pages) [1; 0]%nat [0; 1]%nat H1 H2)).
Defined.

(** C4: when the extraction raises, the document not opening or the text of
    some page not being read, the build returns the empty index, whatever
    tasks were submitted or completed before. *)
Theorem build_aborts_to_empty_index (opened : option document) (completion : list nat) :
  extraction_fails opened ->
  preprocess_pdf opened completion = [].
Proof.
  intros H. rewrite preprocess_pdf_run. destruct opened as [pages|]; [|reflexivity].
  now rewrite (submitted_fails pages 0 H).
Qed.

Lemma build_aborts_to_empty_index_witness :
  extraction_fails (Some unreadable_third_page)
  /\ preprocess_pdf (Some unreadable_third_page) [1; 0; 3; 2]%nat = [].
Proof.
  assert (H : extraction_fails (Some unreadable_third_page)).
  { cbn. right. right. left. reflexivity. }
  split; [exact H|].
  exact (build_aborts_to_empty_index (Some unreadable_third_page) [1; 0; 3; 2]%nat H).
Defined.

(** C6: in the index the build returns, every entry has a page number not
    greater than that of the entry after it. *)
Theorem build_sorted_by_page (opened : option document) (completion : list nat) :
  Sorted page_le (preprocess_pdf opened completion).
Proof.
  rewrite preprocess_pdf_run. destruct opened as [pages|]; [|constructor].
  destruct (submitted 0 pages); [|constructor].
  apply StronglySorted_Sorted, sort_by_page_sorted.
Qed.

(** ** JSON: strings and numbers *)

Lemma scan_string_escape_char (c : ascii) (t : str) :
  Json.scan_string (Json.escape_char c ++ t)
  = match Json.scan_string t with
    | Some (x, r) => Some (c :: x, r)
    | None => None
    end.
Proof. each_char c; reflexivity. Qed.

Lemma scan_string_escaped (s rest : str) :
  Json.scan_string (flat_map Json.escape_char s ++ "034" :: rest) = Some (s, rest).
Proof.
  induction s as [|c s IH]; [reflexivity|].
  cbn [flat_map]. rewrite <- app_assoc, scan_string_escape_char, IH. reflexivity.
Qed.

Lemma encode_string_eq (s rest : str) :
  Json.encode_string s ++ rest
  = "034" :: flat_map Json.escape_char s ++ "034" :: rest.
Proof. unfold Json.encode_string. cbn [app]. now rewrite <- app_assoc. Qed.

Lemma read_digits_digits (u : Decimal.uint) (rest : str) :
  follow_ok rest = true ->
  Json.read_digits (Json.digits u ++ rest) = (u, rest).
Proof.
  intros Hr. induction u; cbn [Json.digits app Json.read_digits];
    try (change (Json.digit_of _) with (Some Decimal.D0)
         || change (Json.digit_of _) with (Some Decimal.D1)
         || change (Json.digit_of _) with (Some Decimal.D2)
         || change (Json.digit_of _) with (Some Decimal.D3)
         || change (Json.digit_of _) with (Some Decimal.D4)
         || change (Json.digit_of _) with (Some Decimal.D5)
         || change (Json.digit_of _) with (Some Decimal.D6)
         || change (Json.digit_of _) with (Some Decimal.D7)
         || change (Json.digit_of _) with (Some Decimal.D8)
         || change (Json.digit_of _) with (Some Decimal.D9));
    try (rewrite IHu; reflexivity).
  destruct rest as [|c rest]; [reflexivity|].
  cbn [Json.read_digits]. revert Hr. unfold follow_ok.
  each_char c; try discriminate; reflexivity.
Qed.

(** The decimal digits of a positive number do not start with a zero. *)
Lemma to_uint_head (p : positive) :
  match Pos.to_uint p with
  | Decimal.Nil | Decimal.D0 _ => False
  | _ => True
  end.
Proof.
  pose proof (DecimalPos.Unsigned.to_uint_nonzero p) as Hzero.
  pose proof (DecimalN.Unsigned.to_of (Pos.to_uint p)) as Hn.
  unfold N.of_uint in Hn. rewrite DecimalPos.Unsigned.of_to in Hn. cbn [N.to_uint] in Hn.
  destruct (Pos.to_uint p) as [|u| | | | | | | | |]; try exact I.
  - discriminate Hn.
  - rewrite DecimalFacts.unorm_D0 in Hn. unfold Decimal.unorm in Hn.
    destruct (Decimal.nzhead u) eqn:E; try discriminate Hn.
    + injection Hn as ->. now elim Hzero.
    + exact (DecimalFacts.nzhead_nonzero _ _ E).
Qed.

Lemma follow_ok_not_float (rest : str) :
  follow_ok rest = true -> Json.float_follows rest = false.
Proof.
  destruct rest as [|c rest]; [reflexivity|]. cbn.
  intros H. apply negb_true_iff in H.
  repeat (apply orb_false_iff in H as [H ?]).
  repeat (apply orb_false_iff; split); assumption.
Qed.

Lemma scan_natural_nonzero (c : ascii) (t : str) :
  between 49 57 c = true ->
  Json.scan_natural (c :: t)
  = let (u, r) := Json.read_digits (c :: t) in Some (N.of_uint u, r).
Proof.
  intros H. unfold Json.scan_natural. rewrite H.
  destruct (Ascii.eqb c "0") eqn:E; [|reflexivity].
  apply Ascii.eqb_eq in E. subst c. discriminate H.
Qed.

Lemma scan_natural_digits (p : positive) (rest : str) :
  follow_ok rest = true ->
  Json.scan_natural (Json.digits (Pos.to_uint p) ++ rest) = Some (Npos p, rest).
Proof.
  intros Hr. pose proof (to_uint_head p) as Hh.
  pose proof (DecimalPos.Unsigned.of_to p) as Hp.
  destruct (Pos.to_uint p) as [|u|u|u|u|u|u|u|u|u|u] eqn:E; try contradiction;
    match goal with
    | |- Json.scan_natural (Json.digits ?d ++ rest) = _ =>
        transitivity (let (u', r) := Json.read_digits (Json.digits d ++ rest)
                      in Some (N.of_uint u', r));
        [ apply scan_natural_nonzero; reflexivity
        | rewrite read_digits_digits by exact Hr; unfold N.of_uint; now rewrite Hp ]
    end.
Qed.

Lemma digits_head (p : positive) (rest : str) :
  exists c t, Json.digits (Pos.to_uint p) ++ rest = c :: t
              /\ between 49 57 c = true.
Proof.
  pose proof (to_uint_head p) as Hh.
  destruct (Pos.to_uint p); try contradiction; eexists _, _; split; reflexivity.
Qed.

Lemma scan_number_encode_int (z : Z) (rest : str) :
  follow_ok rest = true ->
  Json.scan_number (Json.encode_int z ++ rest) = Some (z, rest).
Proof.
  intros Hr. pose proof (follow_ok_not_float rest Hr) as Hf.
  destruct z as [|p|p]; cbn [Json.encode_int app].
  - cbn. now rewrite Hf.
  - destruct (digits_head p rest) as [c [t [E Hc]]].
    pose proof (scan_natural_digits p rest Hr) as Hn. rewrite E in *.
    unfold Json.scan_number.
    destruct (Ascii.eqb c "-") eqn:Em.
    { apply Ascii.eqb_eq in Em. subst c. discriminate Hc. }
    now rewrite Hn, Hf.
  - unfold Json.scan_number. cbn [Ascii.eqb Bool.eqb].
    change (Ascii.eqb "-" "-") with true. cbn match.
    now rewrite scan_natural_digits, Hf.
Qed.

(** ** JSON: values *)

Lemma value_ind' (P : Json.value -> Prop) :
  P Json.Null -> (forall b, P (Json.Bool b)) -> (forall z, P (Json.Int z)) ->
  (forall s, P (Json.Str s)) ->
  (forall items, Forall P items -> P (Json.Array items)) ->
  (forall members, Forall (fun kv => P (snd kv)) members -> P (Json.Object members)) ->
  forall v, P v.
Proof.
  intros HN HB HI HS HA HO. fix IH 1. intros [|b|z|s|items|members].
  - exact HN.
  - apply HB.
  - apply HI.
  - apply HS.
  - apply HA. induction items as [|x items IHl]; constructor; [apply IH | exact IHl].
  - apply HO. induction members as [|[k x] members IHl]; constructor;
      [apply IH | exact IHl].
Qed.

Lemma skip_ws_opens (c : ascii) (t : str) :
  opens_value c = true -> Json.skip_ws (c :: t) = c :: t.
Proof.
  unfold opens_value. intros H. apply negb_true_iff in H.
  apply orb_false_iff in H as [H _]. apply orb_false_iff in H as [H _].
  cbn [Json.skip_ws]. now rewrite H.
Qed.

Lemma not_closing (c : ascii) :
  opens_value c = true -> Ascii.eqb c "]" = false /\ Ascii.eqb c "}" = false.
Proof.
  unfold opens_value. intros H. apply negb_true_iff in H.
  apply orb_false_iff in H as [H H2]. apply orb_false_iff in H as [_ H1]. now split.
Qed.

Lemma encode_opens (v : Json.value) (rest : str) :
  exists c t, Json.encode v ++ rest = c :: t /\ opens_value c = true.
Proof.
  destruct v as [|[]|[|p|p]|s|items|members];
    try (eexists _, _; split; reflexivity).
  - destruct (digits_head p rest) as [c [t [E Hc]]]. exists c, t. split; [exact E|].
    revert Hc. clear. each_char c; intros Hc; try discriminate Hc; reflexivity.
Qed.

Lemma scan_value_number (fuel : nat) (c : ascii) (t : str) :
  (Re.is_digit c || Ascii.eqb c "-") = true ->
  Json.scan_value (S fuel) (c :: t)
  = match Json.scan_number (c :: t) with
    | Some (z, r) => Some (Json.Int z, r)
    | None => None
    end.
Proof. intros H. each_char c; try discriminate H; reflexivity. Qed.

Lemma scan_value_int (fuel : nat) (z : Z) (rest : str) :
  follow_ok rest = true ->
  Json.scan_value (S fuel) (Json.encode_int z ++ rest) = Some (Json.Int z, rest).
Proof.
  intros Hr. pose proof (scan_number_encode_int z rest Hr) as Hn.
  assert (Hh : exists c t, Json.encode_int z ++ rest = c :: t
                           /\ (Re.is_digit c || Ascii.eqb c "-") = true).
  { destruct z as [|p|p]; try (eexists _, _; split; reflexivity).
    destruct (digits_head p rest) as [c [t [E Hc]]]. exists c, t. split; [exact E|].
    revert Hc. clear. each_char c; intros Hc; try discriminate Hc; reflexivity. }
  destruct Hh as [c [t [E Hc]]]. rewrite E in *.
  now rewrite scan_value_number, Hn.
Qed.

Lemma scan_value_array (fuel : nat) (s : str) :
  Json.scan_value (S fuel) ("[" :: s)
  = match Json.skip_ws s with
    | [] => None
    | d :: r =>
        if Ascii.eqb d "]" then Some (Json.Array [], r)
        else match Json.scan_items fuel (d :: r) with
             | Some (vs, r') => Some (Json.Array vs, r')
             | None => None
             end
    end.
Proof. reflexivity. Qed.

Lemma scan_value_object (fuel : nat) (s : str) :
  Json.scan_value (S fuel) ("{" :: s)
  = match Json.skip_ws s with
    | [] => None
    | d :: r =>
        if Ascii.eqb d "}" then Some (Json.Object [], r)
        else match Json.scan_members fuel (d :: r) with
             | Some (ms, r') => Some (Json.Object ms, r')
             | None => None
             end
    end.
Proof. reflexivity. Qed.

Lemma join_cons_opens (x : Json.value) (xs : list Json.value) (tail : str) :
  exists c t, Json.join (map Json.encode (x :: xs)) ++ tail = c :: t
              /\ opens_value c = true.
Proof.
  cbn [map Json.join]. destruct (map Json.encode xs).
  - apply encode_opens.
  - rewrite <- app_assoc. apply encode_opens.
Qed.

Lemma scan_items_encoded (items : list Json.value) :
  Forall decodes items -> items <> [] ->
  forall fuel rest,
    items_weight items <= fuel ->
    Json.scan_items fuel (Json.join (map Json.encode items) ++ "]" :: rest)
    = Some (items, rest).
Proof.
  induction 1 as [|x xs Hx _ IH]; intros Hne fuel rest Hf; [congruence|].
  destruct fuel as [|fuel]; [cbn in Hf; lia|].
  cbn [items_weight fold_right] in Hf. fold (items_weight xs) in Hf.
  destruct xs as [|y ys].
  - cbn [map Json.join Json.scan_items].
    rewrite Hx by (try reflexivity; lia). reflexivity.
  - change (Json.join (map Json.encode (x :: y :: ys)))
      with (Json.encode x ++ py ", " ++ Json.join (map Json.encode (y :: ys))).
    rewrite <- !app_assoc. cbn [Json.scan_items].
    rewrite Hx by (try reflexivity; lia).
    cbn [py list_ascii_of_string app].
    change (Json.skip_ws ("," :: " " :: ?t)) with ("," :: " " :: t).
    cbv iota. change (Ascii.eqb "," "]") with false.
    change (Ascii.eqb "," ",") with true. cbv iota.
    change (Json.skip_ws (" " :: ?t)) with (Json.skip_ws t).
    destruct (join_cons_opens y ys ("]" :: rest)) as [c [t [E Hc]]].
    rewrite E, (skip_ws_opens c t Hc), <- E.
    rewrite IH by (try discriminate; lia). reflexivity.
Qed.

Lemma scan_members_step (fuel : nat) (k : str) (t : str) :
  Json.scan_members (S fuel) (Json.encode_string k ++ py ": " ++ t)
  = match Json.scan_value fuel (Json.skip_ws t) with
    | None => None
    | Some (v, r3) =>
        match Json.skip_ws r3 with
        | [] => None
        | d :: r4 =>
            if Ascii.eqb d "}" then Some ([(k, v)], r4)
            else if Ascii.eqb d "," then
              match Json.scan_members fuel (Json.skip_ws r4) with
              | Some (ms, r5) => Some ((k, v) :: ms, r5)
              | None => None
              end
            else None
        end
    end.
Proof.
  rewrite encode_string_eq. cbn [Json.scan_members].
  change (Ascii.eqb "034" "034") with true. cbv iota.
  rewrite scan_string_escaped. reflexivity.
Qed.

Lemma encode_member_opens (kv : str * Json.value) (tail : str) :
  exists c t, encode_member kv ++ tail = c :: t /\ opens_value c = true.
Proof. eexists _, _. split; reflexivity. Qed.

Lemma join_members_opens (kv : str * Json.value) (ms : list (str * Json.value))
  (tail : str) :
  exists c t, Json.join (map encode_member (kv :: ms)) ++ tail = c :: t
              /\ opens_value c = true.
Proof.
  cbn [map Json.join]. destruct (map encode_member ms).
  - apply encode_member_opens.
  - rewrite <- app_assoc. apply encode_member_opens.
Qed.

Lemma scan_members_encoded (members : list (str * Json.value)) :
  Forall (fun kv => decodes (snd kv)) members -> members <> [] ->
  forall fuel rest,
    members_weight members <= fuel ->
    Json.scan_members fuel (Json.join (map encode_member members) ++ "}" :: rest)
    = Some (members, rest).
Proof.
  induction 1 as [|[k x] ms Hx _ IH]; intros Hne fuel rest Hf; [congruence|].
  destruct fuel as [|fuel]; [cbn in Hf; lia|].
  cbn [members_weight fold_right snd] in Hf. fold (members_weight ms) in Hf.
  cbn [snd] in Hx.
  destruct ms as [|kv ms].
  - cbn [map Json.join]. unfold encode_member at 1. cbn [fst snd].
    rewrite <- !app_assoc, scan_members_step.
    destruct (encode_opens x ("}" :: rest)) as [c [t [E Hc]]].
    rewrite E, (skip_ws_opens c t Hc), <- E.
    rewrite Hx by (try reflexivity; lia). reflexivity.
  - change (Json.join (map encode_member ((k, x) :: kv :: ms)))
      with (encode_member (k, x) ++ py ", " ++ Json.join (map encode_member (kv :: ms))).
    unfold encode_member at 1. cbn [fst snd].
    rewrite <- !app_assoc, scan_members_step.
    destruct (encode_opens x (py ", " ++ Json.join (map encode_member (kv :: ms))
                                ++ "}" :: rest)) as [c [t [E Hc]]].
    rewrite E, (skip_ws_opens c t Hc), <- E.
    rewrite Hx by (try reflexivity; lia).
    cbn [py list_ascii_of_string app].
    change (Json.skip_ws ("," :: " " :: ?t)) with ("," :: " " :: t).
    cbv iota. change (Ascii.eqb "," "}") with false.
    change (Ascii.eqb "," ",") with true. cbv iota.
    change (Json.skip_ws (" " :: ?t)) with (Json.skip_ws t).
    destruct (join_members_opens kv ms ("}" :: rest)) as [c' [t' [E' Hc']]].
    rewrite E', (skip_ws_opens c' t' Hc'), <- E'.
    rewrite IH by (try discriminate; lia). reflexivity.
Qed.

(** The decoder reads back the text of every value. *)
Lemma scan_value_encode (v : Json.value) : decodes v.
Proof.
  induction v as [|b|z|s|items IH|members IH] using value_ind';
    intros fuel rest Hf Hr;
    (destruct fuel as [|fuel]; [cbn in Hf; lia|]).
  - reflexivity.
  - destruct b; reflexivity.
  - now apply scan_value_int.
  - cbn [Json.encode]. rewrite encode_string_eq. cbn [Json.scan_value].
    change (Ascii.eqb "034" "034") with true. cbv iota.
    now rewrite scan_string_escaped.
  - cbn [Json.encode app]. rewrite <- app_assoc. cbn [app].
    rewrite scan_value_array. destruct items as [|x xs]; [reflexivity|].
    destruct (join_cons_opens x xs ("]" :: rest)) as [c [t [E Hc]]].
    rewrite E, (skip_ws_opens c t Hc). destruct (not_closing c Hc) as [-> _].
    rewrite <- E, scan_items_encoded; [reflexivity|exact IH|discriminate|].
    cbn [weight] in Hf. unfold items_weight. lia.
  - change (Json.encode (Json.Object members))
      with ("{" :: Json.join (map encode_member members) ++ ["}"]).
    cbn [app]. rewrite <- app_assoc. cbn [app].
    rewrite scan_value_object. destruct members as [|kv ms]; [reflexivity|].
    destruct (join_members_opens kv ms ("}" :: rest)) as [c [t [E Hc]]].
    rewrite E, (skip_ws_opens c t Hc). destruct (not_closing c Hc) as [_ ->].
    rewrite <- E, scan_members_encoded; [reflexivity|exact IH|discriminate|].
    cbn [weight] in Hf. unfold members_weight. lia.
Qed.


(** The text of a value is at least as long as the decoder's calls are
    deep, so the fuel [json.loads] starts with is enough. *)
Lemma join_bound (texts : list str) :
  fold_right (fun t n => S (length t + n)) 0 texts <= S (length (Json.join texts)).
Proof.
  induction texts as [|t texts IH]; [cbn; lia|].
  cbn [fold_right Json.join]. destruct texts as [|u texts].
  - cbn. lia.
  - rewrite !length_app. cbn [length py list_ascii_of_string]. lia.
Qed.

Lemma encode_length (v : Json.value) : weight v <= length (Json.encode v).
Proof.
  induction v as [|b|z|s|items IH|members IH] using value_ind'.
  - cbn. lia.
  - destruct b; cbn; lia.
  - destruct (encode_opens (Json.Int z) []) as [c [t [E _]]].
    rewrite app_nil_r in E. rewrite E. cbn. lia.
  - cbn. lia.
  - cbn [weight Json.encode length]. rewrite length_app. cbn [length].
    fold (items_weight items).
    assert (Hw : items_weight items
                 <= fold_right (fun t n => S (length t + n)) 0 (map Json.encode items)).
    { induction IH as [|x xs Hx _ IHl]; [apply Nat.le_refl|].
      cbn [items_weight map fold_right] in *. fold (items_weight xs). lia. }
    pose proof (join_bound (map Json.encode items)) as Hj.
    lia.
  - change (Json.encode (Json.Object members))
      with ("{" :: Json.join (map encode_member members) ++ ["}"]).
    cbn [weight length]. rewrite length_app. cbn [length].
    fold (members_weight members).
    assert (Hw : members_weight members
                 <= fold_right (fun t n => S (length t + n)) 0 (map encode_member members)).
    { induction IH as [|[k x] ms Hx _ IHl]; [apply Nat.le_refl|].
      cbn [members_weight map fold_right snd] in *. fold (members_weight ms).
      unfold encode_member at 1. cbn [fst snd]. rewrite !length_app. lia. }
    pose proof (join_bound (map encode_member members)) as Hj.
    lia.
Qed.

(** [json.loads(json.dumps(v))] is [v]. *)
Lemma loads_dumps (v : Json.value) : Json.loads (Json.dumps v) = Some v.
Proof.
  unfold Json.loads, Json.dumps.
  destruct (encode_opens v []) as [c [t [E Hc]]]. rewrite app_nil_r in E.
  assert (Hs : Json.skip_ws (Json.encode v) = Json.encode v ++ []).
  { rewrite app_nil_r, E. now apply skip_ws_opens. }
  rewrite Hs, scan_value_encode; [reflexivity| |reflexivity].
  pose proof (encode_length v). lia.
Qed.

(** ** The index file *)

Lemma value_entry_entry_value (e : entry) : value_entry (entry_value e) = Some e.
Proof. destruct e. reflexivity. Qed.

Lemma value_index_index_value (index : list entry) :
  value_index (index_value index) = Some index.
Proof.
  unfold value_index, index_value.
  induction index as [|e index IH]; [reflexivity|].
  cbn [map value_entries]. now rewrite value_entry_entry_value, IH.
Qed.

(** C8: for every index, the empty one included, loading the file the index
    was saved to gives the index back. *)
Theorem load_after_save (index : list entry) (filename : string) (fs : filesystem) :
  load_index_from_file filename (save_index_to_file index filename fs) = Some index.
Proof.
  unfold load_index_from_file, save_index_to_file, write_text.
  rewrite String.eqb_refl, loads_dumps. apply value_index_index_value.
Qed.

(** ** The search entry point *)

(** C9, as stated, fails: the value returned for a path that does not exist
    is the value returned for a document that exists, when the search finds
    no match and the clock does not advance; nothing in it tells the two
    apart. *)
Lemma nonexistent_path_not_distinguished :
  isfile no_files PDF_FILE_PATH = false
  /\ isfile document_only PDF_FILE_PATH = true
  /\ fst (search_keywords_in_pdf no_files [0%nat] still_clock PDF_FILE_PATH [py "law"])
     = Some ([], 0%float)
  /\ fst (search_keywords_in_pdf document_only [0%nat] still_clock PDF_FILE_PATH
                                 [py "law"])
     = Some ([], 0%float).
Proof. vm_compute. repeat split. Qed.

(** C9, amended: for every keyword list, the search against a path that is
    no file returns the empty result list with the duration [0.0], and leaves
    the files as they are. *)
Theorem search_nonexistent_path (fs : filesystem) (completion : list nat)
  (clk : clock) (pdf_file : string) (keywords : list str) :
  isfile fs pdf_file = false ->
  search_keywords_in_pdf fs completion clk pdf_file keywords
  = (Some ([], 0%float), fs).
Proof. intros H. unfold search_keywords_in_pdf. now rewrite H. Qed.

Lemma search_nonexistent_path_witness :
  isfile no_files PDF_FILE_PATH = false
  /\ search_keywords_in_pdf no_files [] still_clock PDF_FILE_PATH [py "law"]
     = (Some ([], 0%float), no_files).
Proof.
  split; [reflexivity|].
  exact (search_nonexistent_path no_files [] still_clock PDF_FILE_PATH [py "law"]
                                 eq_refl).
Defined.

(** ** The scenario of the specification *)

Example segment_first_page :
  extract_sentences 0 (py "Newton's first law holds. It is foundational.")
  = [ {| page_number := 1; sentence := py "Newton's first law holds." |};
      {| page_number := 1; sentence := py "It is foundational." |} ].
Proof. vm_compute. reflexivity. Qed.

Example segment_abbreviations :
  Re.split_sentences (py "In the U.S. we go. Mr. Smith? Yes. e.g. this")
  = [ py "In the U.S. we go."; py "Mr. Smith?"; py "Yes."; py "e.g. this" ].
Proof. vm_compute. reflexivity. Qed.

Example segment_trailing_text :
  Re.split_sentences (py "Done. and then more") = [ py "Done."; py "and then more" ].
Proof. vm_compute. reflexivity. Qed.

Example build_two_pages :
  preprocess_pdf (Some two_pages) [1; 0]%nat
  = [ {| page_number := 1; sentence := py "Newton's first law holds." |};
      {| page_number := 1; sentence := py "It is foundational." |};
      {| page_number := 2; sentence := py "The second law of motion is different." |} ].
Proof. vm_compute. reflexivity. Qed.

Example search_law :
  search_keywords_in_index (preprocess_pdf (Some two_pages) [1; 0]%nat) [py "law"]
  = Some [ {| keyword := py "law"; result_page := 1;
              result_sentence := py "Newton's first <b>law</b> holds." |};
           {| keyword := py "law"; result_page := 2;
              result_sentence := py "The second <b>law</b> of motion is different." |} ].
Proof. vm_compute. reflexivity. Qed.

Example search_no_keyword :
  search_keywords_in_index (preprocess_pdf (Some two_pages) [0; 1]%nat) [] = Some [].
Proof. vm_compute. reflexivity. Qed.

Example highlight_metacharacters :
  bold_keyword (py "a.c (x)") (py "abc a.C (X) A.c (x)")
  = Some (py "abc <b>a.C (X)</b> <b>A.c (x)</b>").
Proof. vm_compute. reflexivity. Qed.

Example highlight_overlapping :
  occurrences (py "aa") (py "aAaaA x AA") = [0; 2; 8]%nat
  /\ bold_keyword (py "aa") (py "aAaaA x AA")
     = Some (py "<b>aA</b><b>aa</b>A x <b>AA</b>").
Proof. vm_compute. split; reflexivity. Qed.

Example unescaped_dot_is_no_literal :
  Re.compile (py "(?i)(a.c)") true
  = Some {| Re.ignorecase := true;
            Re.group1 := [Re.Lit "a"; Re.Dot; Re.Lit "c"] |}.
Proof. reflexivity. Qed.

Example index_file_empty : Json.dumps (index_value []) = py "[]".
Proof. reflexivity. Qed.

Example index_file_text :
  Json.dumps (index_value [ {| page_number := 1; sentence := py "It is." |} ])
  = "[" :: "{" :: "034" :: py "Page Number" ++ "034" :: py ": 1, "
    ++ "034" :: py "Sentence" ++ "034" :: py ": " ++ "034" :: py "It is."
    ++ "034" :: py "}]".
Proof. vm_compute. reflexivity. Qed.

(** * Further properties *)

(** ** Segmentation, further *)

Lemma split_scan_rejoin (rest : str) :
  forall behind piece,
  exists seps,
    S (length seps) = length (Re.split_scan behind piece rest)
    /\ Forall (fun c => isspace c = true) seps
    /\ rejoin (Re.split_scan behind piece rest) seps = rev piece ++ rest.
Proof.
  induction rest as [|c rest IH]; intros behind piece.
  - exists []. cbn. rewrite app_nil_r. repeat split. constructor.
  - cbn [Re.split_scan]. destruct (Re.boundary behind c) eqn:B.
    + destruct (IH (c :: behind) []) as [seps [Hl [Hs Hr]]].
      exists (c :: seps). cbn [length rejoin]. split; [now rewrite Hl|]. split.
      * constructor; [|exact Hs]. unfold Re.boundary in B.
        now apply andb_true_iff in B as [_ B].
      * now rewrite Hr.
    + destruct (IH (c :: behind) (c :: piece)) as [seps [Hl [Hs Hr]]].
      exists seps. split; [exact Hl|]. split; [exact Hs|].
      rewrite Hr. cbn [rev]. now rewrite <- app_assoc.
Qed.

Lemma sentences_extract (page_num : Z) (text : str) :
  sentences (extract_sentences page_num text) = Re.split_sentences text.
Proof.
  unfold sentences, extract_sentences. rewrite map_map. cbn [sentence].
  apply map_id.
Qed.

Lemma extract_sentences_length (page_num : Z) (text : str) :
  1 <= length (extract_sentences page_num text).
Proof.
  destruct (split_scan_rejoin text [] []) as [seps [Hl _]].
  unfold extract_sentences, Re.split_sentences. rewrite length_map, <- Hl. lia.
Qed.

(** X1: the segmentation drops nothing but the whitespace characters at
    which it splits, one between two sentences: put back in their places,
    they give the text of the page, character for character. *)
Theorem extract_sentences_rejoin (page_num : Z) (text : str) :
  exists seps,
    S (length seps) = length (extract_sentences page_num text)
    /\ Forall (fun c => isspace c = true) seps
    /\ rejoin (sentences (extract_sentences page_num text)) seps = text.
Proof.
  destruct (split_scan_rejoin text [] []) as [seps [Hl [Hs Hr]]].
  exists seps. rewrite sentences_extract. unfold extract_sentences.
  rewrite length_map. fold (Re.split_sentences text) in Hl, Hr.
  split; [exact Hl|]. split; [exact Hs | exact Hr].
Qed.

Lemma isspace_not_terminal (c : ascii) : isspace c = true -> is_terminal c = false.
Proof. each_char c; intros H; try discriminate H; reflexivity. Qed.

Lemma isspace_plain (c : ascii) :
  isspace c = true ->
  isword c = false /\ Ascii.eqb c "." = false
  /\ between 65 90 c = false /\ between 97 122 c = false.
Proof. each_char c; intros H; try discriminate H; repeat split. Qed.

Lemma scan_state_step (behind piece : str) (c : ascii) :
  scan_state behind piece -> scan_state (c :: behind) (c :: piece).
Proof.
  intros [older [-> Ho]]. exists older. split; [reflexivity | exact Ho].
Qed.

Lemma scan_state_split (behind : str) (c : ascii) :
  isspace c = true -> scan_state (c :: behind) [].
Proof. intros Hc. exists (c :: behind). split; [reflexivity | exact Hc]. Qed.

(** The look-behinds never read past the separator that closed the piece
    before: they can be evaluated on the current piece alone. *)
Lemma boundary_local (behind piece : str) (c : ascii) :
  scan_state behind piece -> Re.boundary behind c = Re.boundary piece c.
Proof.
  intros [older [-> Ho]]. destruct older as [|w older]; [now rewrite app_nil_r|].
  destruct (isspace_plain w Ho) as [Hw [Hd [Hu Hl]]].
  unfold Re.boundary.
  destruct piece as [|p1 [|p2 [|p3 [|p4 piece]]]]; cbn [app].
  - unfold Re.behind_terminal. fold (is_terminal w).
    rewrite (isspace_not_terminal w Ho). now rewrite !andb_false_r.
  - assert (Ha : Re.behind_abbreviation (p1 :: w :: older) = false).
    { cbn. destruct older as [|x [|y older]]; try reflexivity.
      now rewrite Hw, andb_false_r. }
    assert (Ht : Re.behind_title (p1 :: w :: older) = false).
    { cbn. destruct older as [|x older]; [reflexivity|]. now rewrite Hl, andb_false_r. }
    now rewrite Ha, Ht.
  - assert (Ha : Re.behind_abbreviation (p1 :: p2 :: w :: older) = false).
    { cbn. destruct older as [|x older]; [reflexivity|]. now rewrite Hd, andb_false_r. }
    assert (Ht : Re.behind_title (p1 :: p2 :: w :: older) = false).
    { cbn. now rewrite Hu. }
    now rewrite Ha, Ht.
  - assert (Ha : Re.behind_abbreviation (p1 :: p2 :: p3 :: w :: older) = false).
    { cbn. now rewrite Hw. }
    now rewrite Ha.
  - reflexivity.
Qed.

Lemma boundary_closes (piece : str) (c : ascii) :
  Re.boundary piece c = true ->
  ends_sentence (rev piece) = true
  /\ Re.behind_title piece = false
  /\ Re.behind_abbreviation piece = false
  /\ isspace c = true.
Proof.
  unfold Re.boundary. intros B.
  apply andb_true_iff in B as [B Hc]. apply andb_true_iff in B as [B Ht].
  apply andb_true_iff in B as [Ha Hti].
  apply negb_true_iff in Ha. apply negb_true_iff in Hti.
  repeat split; try assumption.
  unfold ends_sentence. rewrite rev_involutive.
  destruct piece; [discriminate Ht | exact Ht].
Qed.

Lemma split_scan_ends (rest : str) :
  forall behind piece,
    scan_state behind piece ->
    Forall (fun s => ends_sentence s = true
                     /\ Re.behind_title (rev s) = false
                     /\ Re.behind_abbreviation (rev s) = false)
           (removelast (Re.split_scan behind piece rest)).
Proof.
  induction rest as [|c rest IH]; intros behind piece Hst; [constructor|].
  cbn [Re.split_scan]. destruct (Re.boundary behind c) eqn:B.
  - rewrite (boundary_local _ _ c Hst) in B.
    destruct (boundary_closes _ _ B) as [He [Ht [Ha Hc]]].
    specialize (IH _ _ (scan_state_split behind c Hc)).
    destruct (Re.split_scan (c :: behind) [] rest) eqn:E.
    + destruct (split_scan_rejoin rest (c :: behind) []) as [seps [Hl _]].
      rewrite E in Hl. discriminate Hl.
    + cbn [removelast]. constructor; [|exact IH].
      rewrite rev_involutive. repeat split; assumption.
  - apply IH. now apply scan_state_step.
Qed.

(** X2: every sentence of a page but the last ends with a full stop or a
    question mark, and its last characters do not read as a title (capital,
    small letter, full stop) nor as an abbreviation (word character, full
    stop, word character, one more character); only the last sentence may
    be empty or end otherwise. *)
Theorem extract_sentences_end_marks (page_num : Z) (text : str) :
  Forall (fun s => ends_sentence s = true
                   /\ Re.behind_title (rev s) = false
                   /\ Re.behind_abbreviation (rev s) = false)
         (removelast (sentences (extract_sentences page_num text))).
Proof.
  rewrite sentences_extract. apply split_scan_ends.
  exists []. split; [reflexivity | exact I].
Qed.

Lemma unbroken_snoc (piece : str) (c : ascii) :
  unbroken (rev piece) -> Re.boundary piece c = false -> unbroken (rev (c :: piece)).
Proof.
  intros Hu B a c' b E. cbn [rev] in E.
  destruct (exists_last (l := c' :: b)) as [b' [x Eb]]; [discriminate|].
  rewrite Eb, app_assoc in E. apply app_inj_tail in E as [E Ex].
  destruct b as [|y b].
  - destruct b' as [|z b']; [|destruct b'; discriminate Eb].
    cbn [app] in Eb. injection Eb as ->. rewrite app_nil_r in E. subst a x.
    unfold splits_at. now rewrite rev_involutive.
  - destruct b' as [|z b']; [destruct b; discriminate Eb|].
    cbn [app] in Eb. injection Eb as -> Eb. now apply (Hu a z b').
Qed.

Lemma split_scan_unbroken (rest : str) :
  forall behind piece,
    scan_state behind piece ->
    unbroken (rev piece) ->
    Forall unbroken (Re.split_scan behind piece rest).
Proof.
  induction rest as [|c rest IH]; intros behind piece Hst Hu.
  - constructor; [exact Hu | constructor].
  - cbn [Re.split_scan]. destruct (Re.boundary behind c) eqn:B.
    + constructor; [exact Hu|].
      rewrite (boundary_local _ _ c Hst) in B.
      destruct (boundary_closes _ _ B) as [_ [_ [_ Hc]]].
      apply IH; [now apply scan_state_split|].
      intros a c' b E. now destruct a.
    + apply IH; [now apply scan_state_step|].
      rewrite (boundary_local _ _ c Hst) in B. now apply unbroken_snoc.
Qed.

(** X3: no sentence is split any further: at no position inside a sentence
    does the pattern of the segmentation match, the sentence being read on
    its own; so a whitespace character inside a sentence does not follow a
    full stop or a question mark, or follows what reads as a title or an
    abbreviation. *)
Theorem extract_sentences_unbroken (page_num : Z) (text : str) :
  Forall unbroken (sentences (extract_sentences page_num text)).
Proof.
  rewrite sentences_extract. apply split_scan_unbroken.
  - exists []. split; [reflexivity | exact I].
  - intros a c b E. now destruct a.
Qed.

Lemma split_scan_no_terminal (rest : str) :
  forall behind piece,
    Forall (fun c => is_terminal c = false) behind ->
    Forall (fun c => is_terminal c = false) rest ->
    Re.split_scan behind piece rest = [rev piece ++ rest].
Proof.
  induction rest as [|c rest IH]; intros behind piece Hb Hr.
  - cbn. now rewrite app_nil_r.
  - apply Forall_cons_iff in Hr as [Hc Hr]. cbn [Re.split_scan].
    assert (B : Re.boundary behind c = false).
    { assert (Ht : Re.behind_terminal behind = false).
      { destruct behind as [|d behind]; [reflexivity|].
        apply Forall_cons_iff in Hb as [Hd _]. exact Hd. }
      unfold Re.boundary. now rewrite Ht, andb_false_r. }
    rewrite B, IH; [|now constructor|exact Hr].
    cbn [rev]. now rewrite <- app_assoc.
Qed.

(** X4: a page without any full stop or question mark is one sentence, the
    whole text of the page. *)
Theorem extract_sentences_no_end_mark (page_num : Z) (text : str) :
  Forall (fun c => is_terminal c = false) text ->
  extract_sentences page_num text
  = [ {| page_number := page_num + 1; sentence := text |} ].
Proof.
  intros H. unfold extract_sentences, Re.split_sentences.
  now rewrite split_scan_no_terminal.
Qed.

Lemma extract_sentences_no_end_mark_witness :
  Forall (fun c => is_terminal c = false) (py "Table of contents")
  /\ extract_sentences 4 (py "Table of contents")
     = [ {| page_number := 5; sentence := py "Table of contents" |} ].
Proof.
  assert (H : Forall (fun c => is_terminal c = false) (py "Table of contents")).
  { repeat constructor. }
  split; [exact H|].
  exact (extract_sentences_no_end_mark 4 (py "Table of contents") H).
Defined.

(** ** The build, further *)

Lemma submitted_readable (texts : list str) :
  forall first,
    submitted first (readable texts)
    = Some (map (fun p => extract_sentences (Z.of_nat (fst p)) (snd p))
                (combine (seq first (length texts)) texts)).
Proof.
  induction texts as [|text texts IH]; intros first; [reflexivity|].
  cbn [readable map submitted length seq combine fst snd].
  fold (readable texts). now rewrite IH.
Qed.

Lemma pages_index_cons (first : nat) (text : str) (texts : list str) :
  pages_index first (text :: texts)
  = extract_sentences (Z.of_nat first) text ++ pages_index (S first) texts.
Proof. reflexivity. Qed.

Lemma pages_index_later (texts : list str) :
  forall first e,
    In e (pages_index first texts) -> (Z.of_nat first + 1 <= page_number e)%Z.
Proof.
  induction texts as [|text texts IH]; intros first e H; [now elim H|].
  rewrite pages_index_cons in H. apply in_app_or in H as [H|H].
  - pose proof (extract_sentences_page (Z.of_nat first) text) as Hp.
    rewrite Forall_forall in Hp. rewrite (Hp e H). lia.
  - apply IH in H. lia.
Qed.

Lemma filter_on_page_all (k : Z) (l : list entry) :
  Forall (fun e => page_number e = k) l -> filter (on_page k) l = l.
Proof.
  induction 1 as [|e l He _ IH]; [reflexivity|].
  cbn [filter]. unfold on_page at 1. now rewrite He, Z.eqb_refl, IH.
Qed.

Lemma filter_on_page_none (k : Z) (l : list entry) :
  Forall (fun e => page_number e <> k) l -> filter (on_page k) l = [].
Proof.
  induction 1 as [|e l He _ IH]; [reflexivity|].
  cbn [filter]. unfold on_page at 1.
  now rewrite (proj2 (Z.eqb_neq _ _) He).
Qed.

Lemma pages_index_filter (texts : list str) :
  forall first i text,
    nth_error texts i = Some text ->
    filter (on_page (Z.of_nat (first + i) + 1)) (pages_index first texts)
    = extract_sentences (Z.of_nat (first + i)) text.
Proof.
  induction texts as [|t texts IH]; intros first i text H; [now destruct i|].
  rewrite pages_index_cons, filter_app. destruct i as [|i].
  - cbn [nth_error] in H. injection H as ->. rewrite Nat.add_0_r.
    rewrite filter_on_page_all by apply extract_sentences_page.
    rewrite filter_on_page_none; [apply app_nil_r|].
    apply Forall_forall. intros e He. apply pages_index_later in He. lia.
  - cbn [nth_error] in H.
    rewrite filter_on_page_none.
    + replace (first + S i) with (S first + i) by lia. now apply IH.
    + eapply Forall_impl; [|apply extract_sentences_page].
      intros e He. rewrite He. lia.
Qed.

Lemma pages_index_length (texts : list str) :
  forall first, length texts <= length (pages_index first texts).
Proof.
  induction texts as [|t texts IH]; intros first; [apply Nat.le_0_l|].
  rewrite pages_index_cons, length_app. cbn [length].
  pose proof (extract_sentences_length (Z.of_nat first) t).
  specialize (IH (S first)). lia.
Qed.

(** X5: for a document whose pages all yield their text, and whatever the
    order in which the tasks complete, the index is the segmentation of the
    first page followed by that of the second and so on; the entries that
    carry the number of a page are exactly the sentences of that page, in
    the order of the text, and no page is left without an entry. *)
Theorem build_readable_document (texts : list str) (completion : list nat) :
  schedule (length texts) completion ->
  let index := preprocess_pdf (Some (readable texts)) completion in
  index = pages_index 0 texts
  /\ (forall i text,
        nth_error texts i = Some text ->
        filter (on_page (Z.of_nat i + 1)) index = extract_sentences (Z.of_nat i) text)
  /\ length texts <= length index.
Proof.
  intros Hs index.
  assert (E : index = pages_index 0 texts).
  { unfold index, pages_index. rewrite flat_map_concat_map.
    apply preprocess_pdf_page_order; [apply submitted_readable|].
    unfold readable. now rewrite length_map. }
  split; [exact E|]. rewrite E. split.
  - intros i text H. exact (pages_index_filter texts 0 i text H).
  - apply pages_index_length.
Qed.

Lemma build_readable_document_witness :
  schedule 2 [1; 0]%nat
  /\ preprocess_pdf (Some (readable [ py "One. Two."; py "Three?" ])) [1; 0]%nat
     = pages_index 0 [ py "One. Two."; py "Three?" ].
Proof.
  assert (H : schedule (length [ py "One. Two."; py "Three?" ]) [1; 0]%nat).
  { apply perm_swap. }
  split; [exact H|].
  exact (proj1 (build_readable_document [ py "One. Two."; py "Three?" ] [1; 0]%nat H)).
Defined.

(** ** The text of the index file *)

Lemma escape_char_printable (c : ascii) : Forall printable (Json.escape_char c).
Proof. each_char c; repeat constructor. Qed.

Lemma encode_string_printable (s : str) : Forall printable (Json.encode_string s).
Proof.
  unfold Json.encode_string. constructor; [reflexivity|].
  apply Forall_app. split; [|repeat constructor].
  induction s as [|c s IH]; [constructor|].
  cbn [flat_map]. apply Forall_app. split; [apply escape_char_printable | exact IH].
Qed.

Lemma digits_printable (u : Decimal.uint) : Forall printable (Json.digits u).
Proof. induction u; cbn [Json.digits]; constructor; try reflexivity; assumption. Qed.

Lemma encode_int_printable (z : Z) : Forall printable (Json.encode_int z).
Proof.
  destruct z; cbn [Json.encode_int].
  - repeat constructor.
  - apply digits_printable.
  - constructor; [reflexivity | apply digits_printable].
Qed.

Lemma join_printable (texts : list str) :
  Forall (Forall printable) texts -> Forall printable (Json.join texts).
Proof.
  induction 1 as [|t texts Ht Hts IH]; [constructor|].
  cbn [Json.join]. destruct texts as [|t' texts]; [exact Ht|].
  apply Forall_app. split; [exact Ht|].
  apply Forall_app. split; [repeat constructor | exact IH].
Qed.

Lemma encode_printable (v : Json.value) : Forall printable (Json.encode v).
Proof.
  induction v as [| b | z | s | items IH | members IH] using value_ind'.
  - repeat constructor.
  - destruct b; repeat constructor.
  - apply encode_int_printable.
  - apply encode_string_printable.
  - cbn [Json.encode]. constructor; [reflexivity|].
    apply Forall_app. split; [|repeat constructor].
    apply join_printable. apply Forall_map. exact IH.
  - change (Json.encode (Json.Object members))
      with ("{" :: Json.join (map encode_member members) ++ ["}"]).
    constructor; [reflexivity|].
    apply Forall_app. split; [|repeat constructor].
    apply join_printable. apply Forall_map.
    eapply Forall_impl; [|exact IH]. intros kv Hkv. unfold encode_member.
    apply Forall_app. split; [apply encode_string_printable|].
    apply Forall_app. split; [repeat constructor | exact Hkv].
Qed.

(** X6: whatever characters the sentences of the index hold, the text saved
    to the index file consists of the characters from the space to the
    tilde alone: it is one line of ASCII. *)
Theorem index_file_is_ascii (index : list entry) (filename : string) (fs : filesystem) :
  exists content,
    save_index_to_file index filename fs filename = Some (Text content)
    /\ Forall printable content.
Proof.
  exists (Json.dumps (index_value index)). split.
  - unfold save_index_to_file, write_text. now rewrite String.eqb_refl.
  - apply encode_printable.
Qed.

(** ** The search, further *)

Lemma result_of_unique (found found' : list result) (pairs : list (entry * str)) :
  Forall2 result_of found pairs -> Forall2 result_of found' pairs -> found = found'.
Proof.
  intros H. revert found'. induction H as [|r p found pairs Hr _ IH]; intros found' H'.
  - now inversion H'.
  - inversion H' as [|r' p' found'' pairs' Hr' Hrest]; subst.
    f_equal; [|now apply IH].
    destruct Hr as [H1 [H2 H3]], Hr' as [H1' [H2' H3']].
    destruct r as [k n s], r' as [k' n' s']. cbn in *.
    rewrite H3 in H3'. injection H3' as <-. congruence.
Qed.

Lemma matching_pairs_app (index1 index2 : list entry) (keywords : list str) :
  matching_pairs (index1 ++ index2) keywords
  = matching_pairs index1 keywords ++ matching_pairs index2 keywords.
Proof.
  induction index1 as [|e index1 IH]; [reflexivity|].
  cbn [app]. now rewrite !matching_pairs_cons, IH, app_assoc.
Qed.

(** X7: the search goes through the index entry by entry: the results over
    two indexes put end to end are the results over the first followed by
    the results over the second. *)
Theorem search_keywords_in_index_app (index1 index2 : list entry) (keywords : list str) :
  exists found1 found2,
    search_keywords_in_index index1 keywords = Some found1
    /\ search_keywords_in_index index2 keywords = Some found2
    /\ search_keywords_in_index (index1 ++ index2) keywords = Some (found1 ++ found2).
Proof.
  destruct (search_spec index1 keywords) as [found1 [H1 F1]].
  destruct (search_spec index2 keywords) as [found2 [H2 F2]].
  destruct (search_spec (index1 ++ index2) keywords) as [found [H F]].
  exists found1, found2. split; [exact H1|]. split; [exact H2|].
  rewrite H. f_equal. apply (result_of_unique _ _ _ F).
  rewrite matching_pairs_app. now apply Forall2_app.
Qed.

Lemma entry_results_fst (e : entry) (keywords : list str) (p : entry * str) :
  In p (entry_results e keywords) -> fst p = e.
Proof.
  unfold entry_results. intros H. apply filter_In in H as [H _].
  apply in_map_iff in H as [k [<- _]]. reflexivity.
Qed.

Lemma results_sorted (index : list entry) (keywords : list str) :
  StronglySorted page_le index ->
  forall found,
    Forall2 result_of found (matching_pairs index keywords) ->
    StronglySorted result_page_le found.
Proof.
  induction 1 as [|e index Hs IH He]; intros found HF.
  - cbn in HF. inversion HF. constructor.
  - rewrite matching_pairs_cons in HF.
    apply Forall2_app_inv_r in HF as [f1 [f2 [HF1 [HF2 ->]]]].
    specialize (IH f2 HF2).
    assert (H1 : Forall (fun r => result_page r = page_number e) f1).
    { clear -HF1. revert HF1.
      generalize (entry_results_fst e keywords).
      generalize (entry_results e keywords) as pairs. intros pairs Hfst HF1.
      induction HF1 as [|r p f1 pairs [_ [Hp _]] _ IH]; constructor.
      - rewrite Hp. f_equal. apply Hfst. now left.
      - apply IH. intros q Hq. apply Hfst. now right. }
    assert (H2 : Forall (fun r => (page_number e <= result_page r)%Z) f2).
    { clear -HF2 He.
      assert (Hin : forall p, In p (matching_pairs index keywords) -> In (fst p) index).
      { intros [e' k] Hp. apply In_matching_pairs in Hp. cbn. tauto. }
      revert HF2 Hin. generalize (matching_pairs index keywords) as pairs.
      intros pairs HF2. induction HF2 as [|r p f2 pairs [_ [Hp _]] _ IH];
        intros Hin; constructor.
      - rewrite Hp. rewrite Forall_forall in He. apply He, Hin. now left.
      - apply IH. intros q Hq. apply Hin. now right. }
    clear HF1 HF2. induction H1 as [|r f1 Hr H1 IH1]; [exact IH|].
    cbn [app]. constructor; [exact IH1|].
    apply Forall_app. split.
    + eapply Forall_impl; [|exact H1]. intros r' Hr'.
      unfold result_page_le. rewrite Hr, Hr'. lia.
    + eapply Forall_impl; [|exact H2]. intros r' Hr'.
      unfold result_page_le. rewrite Hr. exact Hr'.
Qed.

Lemma preprocess_pdf_sorted (opened : option document) (completion : list nat) :
  StronglySorted page_le (preprocess_pdf opened completion).
Proof.
  rewrite preprocess_pdf_run. destruct opened as [pages|]; [|constructor].
  destruct (submitted 0 pages); [apply sort_by_page_sorted | constructor].
Qed.

(** X8: the results of a search over a freshly built index come in the order
    of the pages, whatever the document, the completion order of the tasks
    and the keywords. *)
Theorem search_built_index_in_page_order (opened : option document)
  (completion : list nat) (keywords : list str) :
  exists found,
    search_keywords_in_index (preprocess_pdf opened completion) keywords = Some found
    /\ StronglySorted result_page_le found.
Proof.
  destruct (search_spec (preprocess_pdf opened completion) keywords) as [found [H F]].
  exists found. split; [exact H|].
  exact (results_sorted _ keywords (preprocess_pdf_sorted opened completion) found F).
Qed.













(** ** The search entry point and the initialisation *)

Lemma search_total (index : list entry) (keywords : list str) :
  exists found, search_keywords_in_index index keywords = Some found.
Proof.
  destruct (search_spec index keywords) as [found [H _]]. now exists found.
Qed.

Lemma load_index_saved (index : list entry) (filename : string) (fs : filesystem) :
  load_index_from_file filename
    (write_text fs filename (Json.dumps (index_value index))) = Some index.
Proof.
  unfold load_index_from_file, write_text.
  rewrite String.eqb_refl, loads_dumps. apply value_index_index_value.
Qed.

Lemma load_index_isfile (filename : string) (fs : filesystem) (index : list entry) :
  load_index_from_file filename fs = Some index -> isfile fs filename = true.
Proof.
  unfold load_index_from_file, isfile. now destruct (fs filename).
Qed.

(** What a search does once an index file loads. *)
Lemma search_keywords_in_pdf_loaded (fs : filesystem) (completion : list nat)
  (clk : clock) (pdf_file : string) (keywords : list str) (index : list entry) :
  isfile fs pdf_file = true ->
  load_index_from_file INDEX_FILE_PATH fs = Some index ->
  exists found,
    search_keywords_in_index index keywords = Some found
    /\ search_keywords_in_pdf fs completion clk pdf_file keywords
       = (Some (found, duration clk), fs).
Proof.
  intros Hp Hl. destruct (search_total index keywords) as [found Hs].
  exists found. split; [exact Hs|].
  unfold search_keywords_in_pdf.
  rewrite Hp, (load_index_isfile _ _ _ Hl), Hl. cbn [negb]. now rewrite Hs.
Qed.

(** X11: once an index file loads, a search is the search over the loaded
    index: the document is not opened, the completion order plays no part,
    and no file is written; an index that is out of date is served as it
    is. *)
Theorem search_keywords_in_pdf_uses_index_file (fs : filesystem)
  (completion : list nat) (clk : clock) (pdf_file : string) (keywords : list str)
  (index : list entry) :
  isfile fs pdf_file = true ->
  load_index_from_file INDEX_FILE_PATH fs = Some index ->
  exists found,
    search_keywords_in_index index keywords = Some found
    /\ forall fs' completion',
         isfile fs' pdf_file = true ->
         fs' INDEX_FILE_PATH = fs INDEX_FILE_PATH ->
         search_keywords_in_pdf fs' completion' clk pdf_file keywords
         = (Some (found, duration clk), fs').
Proof.
  intros Hp Hl. destruct (search_total index keywords) as [found Hs].
  exists found. split; [exact Hs|]. intros fs' completion' Hp' Hsame.
  assert (Hl' : load_index_from_file INDEX_FILE_PATH fs' = Some index).
  { unfold load_index_from_file in *. now rewrite Hsame. }
  destruct (search_keywords_in_pdf_loaded fs' completion' clk pdf_file keywords index
              Hp' Hl') as [found' [Hs' Hr]].
  rewrite Hs in Hs'. injection Hs' as <-. exact Hr.
Qed.

Lemma search_keywords_in_pdf_uses_index_file_witness :
  exists found,
    search_keywords_in_index [ {| page_number := 7; sentence := py "Old text." |} ]
                             [ py "old" ] = Some found
    /\ forall fs' completion',
         isfile fs' PDF_FILE_PATH = true ->
         fs' INDEX_FILE_PATH
         = save_index_to_file [ {| page_number := 7; sentence := py "Old text." |} ]
                              INDEX_FILE_PATH document_only INDEX_FILE_PATH ->
         search_keywords_in_pdf fs' completion' still_clock PDF_FILE_PATH [ py "old" ]
         = (Some (found, duration still_clock), fs').
Proof.
  exact (search_keywords_in_pdf_uses_index_file
           (save_index_to_file [ {| page_number := 7; sentence := py "Old text." |} ]
                               INDEX_FILE_PATH document_only)
           [] still_clock PDF_FILE_PATH [ py "old" ]
           [ {| page_number := 7; sentence := py "Old text." |} ]
           eq_refl (load_index_saved _ _ _)).
Defined.

Lemma isfile_saved_other (index : list entry) (filename path : string) (fs : filesystem) :
  isfile fs filename = false -> isfile fs path = true ->
  isfile (save_index_to_file index filename fs) path = true.
Proof.
  intros Hf Hp. unfold save_index_to_file, write_text, isfile.
  destruct (String.eqb path filename); [reflexivity|]. exact Hp.
Qed.

(** X12: without an index file, a search builds the index from the document,
    saves it, and answers from it; every later search, whatever its keywords
    and the completion order it is given, answers from the saved index and
    leaves the files as the first search left them. *)
Theorem search_keywords_in_pdf_builds_once (fs : filesystem) (completion : list nat)
  (clk : clock) (pdf_file : string) (keywords : list str) :
  isfile fs pdf_file = true ->
  isfile fs INDEX_FILE_PATH = false ->
  let index := preprocess_pdf (fitz_open fs pdf_file) completion in
  let fs' := save_index_to_file index INDEX_FILE_PATH fs in
  exists found,
    search_keywords_in_index index keywords = Some found
    /\ search_keywords_in_pdf fs completion clk pdf_file keywords
       = (Some (found, duration clk), fs')
    /\ forall completion' clk' keywords',
       exists found',
         search_keywords_in_index index keywords' = Some found'
         /\ search_keywords_in_pdf fs' completion' clk' pdf_file keywords'
            = (Some (found', duration clk'), fs').
Proof.
  intros Hp Hi index fs'.
  destruct (search_total index keywords) as [found Hs].
  exists found. split; [exact Hs|]. split.
  - unfold search_keywords_in_pdf. rewrite Hp, Hi. cbn [negb].
    fold index. now rewrite Hs.
  - intros completion' clk' keywords'.
    apply search_keywords_in_pdf_loaded.
    + now apply isfile_saved_other.
    + apply load_index_saved.
Qed.

Lemma search_keywords_in_pdf_builds_once_witness :
  exists found,
    search_keywords_in_index
      (preprocess_pdf (fitz_open document_only PDF_FILE_PATH) [0%nat])
      [ py "momentum" ] = Some found
    /\ search_keywords_in_pdf document_only [0%nat] still_clock PDF_FILE_PATH
                              [ py "momentum" ]
       = (Some (found, duration still_clock),
          save_index_to_file
            (preprocess_pdf (fitz_open document_only PDF_FILE_PATH) [0%nat])
            INDEX_FILE_PATH document_only).
Proof.
  destruct (search_keywords_in_pdf_builds_once document_only [0%nat] still_clock
              PDF_FILE_PATH [ py "momentum" ] eq_refl eq_refl) as [found [Hs [Hr _]]].
  exists found. split; [exact Hs | exact Hr].
Defined.

Lemma preprocess_pdf_fails (opened : option document) (completion : list nat) :
  extraction_fails opened -> preprocess_pdf opened completion = [].
Proof.
  intros H. rewrite preprocess_pdf_run. destruct opened as [pages|]; [|reflexivity].
  now rewrite (submitted_fails pages 0 H).
Qed.

(** X13: when the extraction fails and there is no index file, the search
    saves the empty index and reports no result; from then on every search
    that finds this index file reports no result, whatever the document at
    the path has become. *)
Theorem search_keywords_in_pdf_failed_build (fs : filesystem) (completion : list nat)
  (clk : clock) (pdf_file : string) (keywords : list str) :
  isfile fs pdf_file = true ->
  isfile fs INDEX_FILE_PATH = false ->
  extraction_fails (fitz_open fs pdf_file) ->
  exists fs',
    search_keywords_in_pdf fs completion clk pdf_file keywords
    = (Some ([], duration clk), fs')
    /\ fs' INDEX_FILE_PATH = Some (Text (py "[]"))
    /\ forall fs'' completion' clk' keywords',
         isfile fs'' pdf_file = true ->
         fs'' INDEX_FILE_PATH = Some (Text (py "[]")) ->
         search_keywords_in_pdf fs'' completion' clk' pdf_file keywords'
         = (Some ([], duration clk'), fs'').
Proof.
  intros Hp Hi Hf. eexists. split; [|split].
  - unfold search_keywords_in_pdf. rewrite Hp, Hi. cbn [negb].
    rewrite (preprocess_pdf_fails _ completion Hf). reflexivity.
  - unfold save_index_to_file, write_text. now rewrite String.eqb_refl.
  - intros fs'' completion' clk' keywords' Hp' Hi'.
    unfold search_keywords_in_pdf, load_index_from_file.
    rewrite Hp'. unfold isfile at 1. rewrite Hi'. reflexivity.
Qed.

Lemma search_keywords_in_pdf_failed_build_witness :
  isfile broken_document_only PDF_FILE_PATH = true
  /\ extraction_fails (fitz_open broken_document_only PDF_FILE_PATH)
  /\ exists fs',
       search_keywords_in_pdf broken_document_only [] still_clock PDF_FILE_PATH
                              [ py "law" ]
       = (Some ([], duration still_clock), fs')
       /\ fs' INDEX_FILE_PATH = Some (Text (py "[]")).
Proof.
  split; [reflexivity|]. split; [exact I|].
  destruct (search_keywords_in_pdf_failed_build broken_document_only [] still_clock
              PDF_FILE_PATH [ py "law" ] eq_refl eq_refl I) as [fs' [Hr [Hi _]]].
  exists fs'. split; [exact Hr | exact Hi].
Defined.

Lemma loads_blank (content : str) :
  Json.skip_ws content = [] -> Json.loads content = None.
Proof. intros H. unfold Json.loads. now rewrite H. Qed.

(** X14: an index file that is empty or holds only whitespace is never
    repaired: the initialisation leaves it as it is, and every search
    raises. *)
Theorem blank_index_file_stays (fs : filesystem) (completion : list nat)
  (clk : clock) (pdf_file : string) (keywords : list str) (content : str) :
  isfile fs pdf_file = true ->
  fs INDEX_FILE_PATH = Some (Text content) ->
  Json.skip_ws content = [] ->
  initialize_index fs completion pdf_file INDEX_FILE_PATH = fs
  /\ search_keywords_in_pdf fs completion clk pdf_file keywords = (None, fs).
Proof.
  intros Hp Hi Hb. split.
  - unfold initialize_index, isfile. now rewrite Hi.
  - unfold search_keywords_in_pdf, load_index_from_file. rewrite Hp.
    unfold isfile at 1. rewrite Hi, (loads_blank content Hb). reflexivity.
Qed.

Lemma blank_index_file_stays_witness :
  initialize_index blank_index_file [0%nat] PDF_FILE_PATH INDEX_FILE_PATH
  = blank_index_file
  /\ search_keywords_in_pdf blank_index_file [0%nat] still_clock PDF_FILE_PATH
                            [ py "momentum" ]
     = (None, blank_index_file).
Proof.
  exact (blank_index_file_stays blank_index_file [0%nat] still_clock PDF_FILE_PATH
           [ py "momentum" ] [] eq_refl eq_refl eq_refl).
Defined.

Lemma isfile_initialize_index (fs : filesystem) (completion : list nat)
  (pdf_file index_file : string) :
  isfile (initialize_index fs completion pdf_file index_file) index_file = true.
Proof.
  unfold initialize_index. destruct (isfile fs index_file) eqn:E; cbn [negb].
  - exact E.
  - unfold save_index_to_file, write_text, isfile. now rewrite String.eqb_refl.
Qed.

(** X15: the initialisation leaves an index file behind and touches no other
    path; run again, with any document, it changes nothing; and after it no
    search writes a file. *)
Theorem initialize_index_once (fs : filesystem) (completion completion' : list nat)
  (pdf_file pdf_file' index_file : string) :
  let fs1 := initialize_index fs completion pdf_file index_file in
  isfile fs1 index_file = true
  /\ initialize_index fs1 completion' pdf_file' index_file = fs1
  /\ (forall path, path <> index_file -> fs1 path = fs path)
  /\ (forall clk keywords,
        snd (search_keywords_in_pdf
               (initialize_index fs completion pdf_file INDEX_FILE_PATH)
               completion' clk pdf_file' keywords)
        = initialize_index fs completion pdf_file INDEX_FILE_PATH).
Proof.
  intros fs1.
  assert (H1 : isfile fs1 index_file = true) by apply isfile_initialize_index.
  split; [exact H1|]. split; [|split].
  - unfold initialize_index at 1. now rewrite H1.
  - intros path Hp. unfold fs1, initialize_index.
    destruct (isfile fs index_file); cbn [negb]; [reflexivity|].
    unfold save_index_to_file, write_text.
    now rewrite (proj2 (String.eqb_neq path index_file) Hp).
  - intros clk keywords. unfold search_keywords_in_pdf.
    rewrite (isfile_initialize_index fs completion pdf_file INDEX_FILE_PATH).
    destruct (negb (isfile _ pdf_file')); [reflexivity|].
    destruct (load_index_from_file INDEX_FILE_PATH _) as [index|]; [|reflexivity].
    now destruct (search_keywords_in_index index keywords).
Qed.

(** X16: started without an index file, the program initialises the index and
    a search then answers from the index built from the document by the
    initialisation, without building again. *)
Theorem search_after_initialize_index (fs : filesystem) (completion completion' : list nat)
  (clk : clock) (keywords : list str) :
  isfile fs PDF_FILE_PATH = true ->
  isfile fs INDEX_FILE_PATH = false ->
  let fs1 := initialize_index fs completion PDF_FILE_PATH INDEX_FILE_PATH in
  exists found,
    search_keywords_in_index
      (preprocess_pdf (fitz_open fs PDF_FILE_PATH) completion) keywords = Some found
    /\ search_keywords_in_pdf fs1 completion' clk PDF_FILE_PATH keywords
       = (Some (found, duration clk), fs1).
Proof.
  intros Hp Hi fs1. apply search_keywords_in_pdf_loaded.
  - unfold fs1, initialize_index. rewrite Hi. cbn [negb].
    now apply isfile_saved_other.
  - unfold fs1, initialize_index. rewrite Hi. cbn [negb]. apply load_index_saved.
Qed.

Lemma search_after_initialize_index_witness :
  exists found,
    search_keywords_in_index
      (preprocess_pdf (fitz_open document_only PDF_FILE_PATH) [0%nat])
      [ py "momentum" ] = Some found
    /\ search_keywords_in_pdf
         (initialize_index document_only [0%nat] PDF_FILE_PATH INDEX_FILE_PATH)
         [] still_clock PDF_FILE_PATH [ py "momentum" ]
       = (Some (found, duration still_clock),
          initialize_index document_only [0%nat] PDF_FILE_PATH INDEX_FILE_PATH).
Proof.
  exact (search_after_initialize_index document_only [0%nat] [] still_clock
           [ py "momentum" ] eq_refl eq_refl).
Defined.

(** ** JSON with an indent *)

Lemma skip_ws_spaces (n : nat) (t : str) :
  Json.skip_ws (repeat " " n ++ t) = Json.skip_ws t.
Proof. induction n as [|n IH]; [reflexivity | exact IH]. Qed.

Lemma skip_ws_newline_indent (level : nat) (t : str) :
  Json.skip_ws (Pretty.newline_indent level ++ t) = Json.skip_ws t.
Proof.
  unfold Pretty.newline_indent. cbn [app].
  change (Json.skip_ws ("010" :: ?u)) with (Json.skip_ws u).
  apply skip_ws_spaces.
Qed.

Lemma follow_ok_newline_indent (level : nat) (t : str) :
  follow_ok (Pretty.newline_indent level ++ t) = true.
Proof. reflexivity. Qed.

Lemma pretty_encode_unfold_array (level : nat) (x : Json.value) (xs : list Json.value) :
  Pretty.encode level (Json.Array (x :: xs))
  = "[" :: Pretty.newline_indent (S level)
    ++ Pretty.join ("," :: Pretty.newline_indent (S level))
                   (map (Pretty.encode (S level)) (x :: xs))
    ++ Pretty.newline_indent level ++ ["]"].
Proof. reflexivity. Qed.

Lemma pretty_encode_unfold_object (level : nat) (kv : str * Json.value)
  (ms : list (str * Json.value)) :
  Pretty.encode level (Json.Object (kv :: ms))
  = "{" :: Pretty.newline_indent (S level)
    ++ Pretty.join ("," :: Pretty.newline_indent (S level))
                   (map (pretty_member (S level)) (kv :: ms))
    ++ Pretty.newline_indent level ++ ["}"].
Proof. reflexivity. Qed.

Lemma pretty_encode_opens (level : nat) (v : Json.value) (rest : str) :
  exists c t, Pretty.encode level v ++ rest = c :: t /\ opens_value c = true.
Proof.
  destruct v as [|b|z|s|[|x xs]|[|kv ms]];
    try (eexists _, _; split; reflexivity).
  - apply (encode_opens (Json.Bool b)).
  - apply (encode_opens (Json.Int z)).
Qed.

Lemma pretty_join_items_opens (level : nat) (sep : str) (x : Json.value)
  (xs : list Json.value) (tail : str) :
  exists c t, Pretty.join sep (map (Pretty.encode level) (x :: xs)) ++ tail = c :: t
              /\ opens_value c = true.
Proof.
  cbn [map Pretty.join]. destruct (map (Pretty.encode level) xs).
  - apply pretty_encode_opens.
  - rewrite <- app_assoc. apply pretty_encode_opens.
Qed.

Lemma pretty_join_members_opens (level : nat) (sep : str) (kv : str * Json.value)
  (ms : list (str * Json.value)) (tail : str) :
  exists c t, Pretty.join sep (map (pretty_member level) (kv :: ms)) ++ tail = c :: t
              /\ opens_value c = true.
Proof.
  cbn [map Pretty.join]. destruct (map (pretty_member level) ms);
    [|rewrite <- app_assoc]; eexists _, _; split; reflexivity.
Qed.

Lemma scan_items_pretty (items : list Json.value) :
  Forall decodes_pretty items -> items <> [] ->
  forall level sep_level close_level fuel rest,
    items_weight items <= fuel ->
    Json.scan_items fuel
      (Pretty.join ("," :: Pretty.newline_indent sep_level)
                   (map (Pretty.encode level) items)
       ++ Pretty.newline_indent close_level ++ "]" :: rest)
    = Some (items, rest).
Proof.
  induction 1 as [|x xs Hx _ IH]; intros Hne level sl cl fuel rest Hf; [congruence|].
  destruct fuel as [|fuel]; [cbn in Hf; lia|].
  cbn [items_weight fold_right] in Hf. fold (items_weight xs) in Hf.
  destruct xs as [|y ys].
  - cbn [map Pretty.join Json.scan_items].
    rewrite Hx by (try apply follow_ok_newline_indent; lia).
    rewrite skip_ws_newline_indent. reflexivity.
  - change (Pretty.join ?sep (map ?f (x :: y :: ys)))
      with (f x ++ sep ++ Pretty.join sep (map f (y :: ys))).
    rewrite <- !app_assoc. cbn [Json.scan_items].
    rewrite Hx by (try reflexivity; lia).
    cbn [app].
    change (Json.skip_ws ("," :: ?t)) with ("," :: t).
    cbv iota. change (Ascii.eqb "," "]") with false.
    change (Ascii.eqb "," ",") with true. cbv iota.
    rewrite skip_ws_newline_indent.
    destruct (pretty_join_items_opens level ("," :: Pretty.newline_indent sl) y ys
                (Pretty.newline_indent cl ++ "]" :: rest)) as [c [t [E Hc]]].
    rewrite E, (skip_ws_opens c t Hc), <- E.
    rewrite IH by (try discriminate; lia). reflexivity.
Qed.

Lemma scan_members_pretty (members : list (str * Json.value)) :
  Forall (fun kv => decodes_pretty (snd kv)) members -> members <> [] ->
  forall level sep_level close_level fuel rest,
    members_weight members <= fuel ->
    Json.scan_members fuel
      (Pretty.join ("," :: Pretty.newline_indent sep_level)
                   (map (pretty_member level) members)
       ++ Pretty.newline_indent close_level ++ "}" :: rest)
    = Some (members, rest).
Proof.
  induction 1 as [|[k x] ms Hx _ IH]; intros Hne level sl cl fuel rest Hf; [congruence|].
  destruct fuel as [|fuel]; [cbn in Hf; lia|].
  cbn [members_weight fold_right snd] in Hf. fold (members_weight ms) in Hf.
  cbn [snd] in Hx.
  destruct ms as [|kv ms].
  - cbn [map Pretty.join]. unfold pretty_member at 1. cbn [fst snd].
    rewrite <- !app_assoc, scan_members_step.
    destruct (pretty_encode_opens level x (Pretty.newline_indent cl ++ "}" :: rest))
      as [c [t [E Hc]]].
    rewrite E, (skip_ws_opens c t Hc), <- E.
    rewrite Hx by (try apply follow_ok_newline_indent; lia).
    rewrite skip_ws_newline_indent. reflexivity.
  - change (Pretty.join ?sep (map ?f ((k, x) :: kv :: ms)))
      with (f (k, x) ++ sep ++ Pretty.join sep (map f (kv :: ms))).
    unfold pretty_member at 1. cbn [fst snd].
    rewrite <- !app_assoc, scan_members_step.
    match goal with
    | |- context [Json.skip_ws (Pretty.encode level x ++ ?tail)] =>
        destruct (pretty_encode_opens level x tail) as [c [t [E Hc]]];
        rewrite E, (skip_ws_opens c t Hc), <- E
    end.
    rewrite Hx by (try reflexivity; lia).
    cbn [app].
    change (Json.skip_ws ("," :: ?t)) with ("," :: t).
    cbv iota. change (Ascii.eqb "," "}") with false.
    change (Ascii.eqb "," ",") with true. cbv iota.
    rewrite skip_ws_newline_indent.
    destruct (pretty_join_members_opens level ("," :: Pretty.newline_indent sl) kv ms
                (Pretty.newline_indent cl ++ "}" :: rest)) as [c' [t' [E' Hc']]].
    rewrite E', (skip_ws_opens c' t' Hc'), <- E'.
    rewrite IH by (try discriminate; lia). reflexivity.
Qed.

(** The decoder reads back the indented text of every value. *)
Lemma scan_value_pretty (v : Json.value) : decodes_pretty v.
Proof.
  induction v as [|b|z|s|items IH|members IH] using value_ind';
    intros level fuel rest Hf Hr.
  - exact (scan_value_encode Json.Null fuel rest Hf Hr).
  - exact (scan_value_encode (Json.Bool b) fuel rest Hf Hr).
  - exact (scan_value_encode (Json.Int z) fuel rest Hf Hr).
  - exact (scan_value_encode (Json.Str s) fuel rest Hf Hr).
  - destruct fuel as [|fuel]; [cbn in Hf; lia|].
    destruct items as [|x xs]; [reflexivity|].
    rewrite pretty_encode_unfold_array. cbn [app]. rewrite <- !app_assoc. cbn [app].
    rewrite scan_value_array, skip_ws_newline_indent.
    match goal with
    | |- context [Json.skip_ws (Pretty.join ?sep ?l ++ ?tail)] =>
        destruct (pretty_join_items_opens (S level) sep x xs tail) as [c [t [E Hc]]]
    end.
    rewrite E, (skip_ws_opens c t Hc). destruct (not_closing c Hc) as [-> _].
    rewrite <- E, scan_items_pretty; [reflexivity|exact IH|discriminate|].
    cbn [weight] in Hf. unfold items_weight. lia.
  - destruct fuel as [|fuel]; [cbn in Hf; lia|].
    destruct members as [|kv ms]; [reflexivity|].
    rewrite pretty_encode_unfold_object. cbn [app]. rewrite <- !app_assoc. cbn [app].
    rewrite scan_value_object, skip_ws_newline_indent.
    match goal with
    | |- context [Json.skip_ws (Pretty.join ?sep ?l ++ ?tail)] =>
        destruct (pretty_join_members_opens (S level) sep kv ms tail) as [c [t [E Hc]]]
    end.
    rewrite E, (skip_ws_opens c t Hc). destruct (not_closing c Hc) as [_ ->].
    rewrite <- E, scan_members_pretty; [reflexivity|exact IH|discriminate|].
    cbn [weight] in Hf. unfold members_weight. lia.
Qed.

Lemma pretty_join_bound (sep : str) (texts : list str) :
  sep <> [] ->
  fold_right (fun t n => S (length t + n)) 0 texts <= S (length (Pretty.join sep texts)).
Proof.
  intros Hs. induction texts as [|t texts IH]; [cbn; lia|].
  cbn [fold_right Pretty.join]. destruct texts as [|u texts].
  - cbn. lia.
  - rewrite !length_app. destruct sep; [congruence|]. cbn [length] in *. lia.
Qed.

Lemma pretty_encode_length (v : Json.value) :
  forall level, weight v <= length (Pretty.encode level v).
Proof.
  induction v as [|b|z|s|items IH|members IH] using value_ind'; intros level.
  - exact (encode_length Json.Null).
  - exact (encode_length (Json.Bool b)).
  - exact (encode_length (Json.Int z)).
  - exact (encode_length (Json.Str s)).
  - destruct items as [|x xs]; [cbn; lia|].
    rewrite pretty_encode_unfold_array. cbn [weight length]. rewrite !length_app.
    change (length ["]"]) with 1. fold (items_weight (x :: xs)).
    assert (Hw : items_weight (x :: xs)
                 <= fold_right (fun t n => S (length t + n)) 0
                      (map (Pretty.encode (S level)) (x :: xs))).
    { clear -IH. induction IH as [|y ys Hy _ IHl]; [apply Nat.le_refl|].
      cbn [items_weight map fold_right] in *. fold (items_weight ys).
      specialize (Hy (S level)). lia. }
    pose proof (pretty_join_bound ("," :: Pretty.newline_indent (S level))
                  (map (Pretty.encode (S level)) (x :: xs)) ltac:(discriminate)) as Hj.
    lia.
  - destruct members as [|kv ms]; [cbn; lia|].
    rewrite pretty_encode_unfold_object. cbn [weight length]. rewrite !length_app.
    change (length ["}"]) with 1. fold (members_weight (kv :: ms)).
    assert (Hw : members_weight (kv :: ms)
                 <= fold_right (fun t n => S (length t + n)) 0
                      (map (pretty_member (S level)) (kv :: ms))).
    { clear -IH. induction IH as [|[k y] ys Hy _ IHl]; [apply Nat.le_refl|].
      cbn [members_weight map fold_right snd] in *. fold (members_weight ys).
      unfold pretty_member at 1. cbn [fst snd]. rewrite !length_app.
      specialize (Hy (S level)). lia. }
    pose proof (pretty_join_bound ("," :: Pretty.newline_indent (S level))
                  (map (pretty_member (S level)) (kv :: ms)) ltac:(discriminate)) as Hj.
    lia.
Qed.

(** [json.loads(json.dumps(v, indent=4))] parses to [v]. *)
Lemma loads_pretty_dumps (v : Json.value) : Json.loads (Pretty.dumps v) = Some v.
Proof.
  unfold Json.loads, Pretty.dumps.
  destruct (pretty_encode_opens 0 v []) as [c [t [E Hc]]]. rewrite app_nil_r in E.
  assert (Hs : Json.skip_ws (Pretty.encode 0 v) = Pretty.encode 0 v ++ []).
  { rewrite app_nil_r, E. now apply skip_ws_opens. }
  rewrite Hs, scan_value_pretty; [reflexivity| |reflexivity].
  pose proof (pretty_encode_length v 0). lia.
Qed.

(** ** Dictionaries *)

Lemma str_eqb_eq (a b : str) : Json.str_eqb a b = true <-> a = b.
Proof.
  revert b. induction a as [|x a IH]; intros [|y b]; cbn; try easy.
  rewrite andb_true_iff, Ascii.eqb_eq, IH. split.
  - now intros [-> ->].
  - intros H. now inversion H.
Qed.

Lemma str_eqb_neq (a b : str) : a <> b -> Json.str_eqb a b = false.
Proof.
  intros H. destruct (Json.str_eqb a b) eqn:E; [|reflexivity].
  now apply str_eqb_eq in E.
Qed.

Lemma dict_set_fresh (key : str) (v : Json.value) (d : list (str * Json.value)) :
  ~ In key (map fst d) -> Dict.set key v d = d ++ [(key, v)].
Proof.
  induction d as [|[k x] d IH]; intros H; [reflexivity|].
  cbn [Dict.set]. rewrite str_eqb_neq.
  - cbn [app]. f_equal. apply IH. intros Hin. apply H. now right.
  - intros ->. apply H. now left.
Qed.

Lemma dict_set_keys (key : str) (v : Json.value) (d : list (str * Json.value)) (k : str) :
  In k (map fst (Dict.set key v d)) <-> k = key \/ In k (map fst d).
Proof.
  induction d as [|[k' x] d IH]; cbn [Dict.set].
  - cbn. intuition congruence.
  - destruct (Json.str_eqb k' key) eqn:E.
    + apply str_eqb_eq in E. subst k'. cbn. intuition congruence.
    + cbn [map fst In]. rewrite IH. intuition congruence.
Qed.

Lemma dict_set_NoDup (key : str) (v : Json.value) (d : list (str * Json.value)) :
  NoDup (map fst d) -> NoDup (map fst (Dict.set key v d)).
Proof.
  induction d as [|[k x] d IH]; intros H; cbn [Dict.set].
  - cbn. constructor; [easy | constructor].
  - cbn [map fst] in H. apply NoDup_cons_iff in H as [Hk Hd].
    destruct (Json.str_eqb k key) eqn:E.
    + cbn. now constructor.
    + cbn [map fst]. constructor; [|now apply IH].
      rewrite dict_set_keys. intros [->|Hin]; [|contradiction].
      now rewrite (proj2 (str_eqb_eq key key) eq_refl) in E.
Qed.

Lemma dict_set_values (P : Json.value -> Prop) (key : str) (v : Json.value)
  (d : list (str * Json.value)) :
  P v -> Forall (fun kv => P (snd kv)) d -> Forall (fun kv => P (snd kv)) (Dict.set key v d).
Proof.
  intros Hv. induction 1 as [|[k x] d Hx Hd IH]; cbn [Dict.set].
  - now repeat constructor.
  - destruct (Json.str_eqb k key); constructor; assumption.
Qed.

Lemma of_pairs_from (pairs : list (str * Json.value)) :
  forall d,
    NoDup (map fst (d ++ pairs)) ->
    fold_left (fun d kv => Dict.set (fst kv) (snd kv) d) pairs d = d ++ pairs.
Proof.
  induction pairs as [|[k x] pairs IH]; intros d H.
  - now rewrite app_nil_r.
  - cbn [fold_left fst snd]. rewrite dict_set_fresh.
    + rewrite IH; rewrite <- app_assoc; [reflexivity | exact H].
    + rewrite map_app in H. apply NoDup_remove_2 in H.
      intros Hin. apply H, in_or_app. now left.
Qed.

Lemma of_pairs_invariant (P : Json.value -> Prop) (pairs : list (str * Json.value)) :
  forall d,
    NoDup (map fst d) -> Forall (fun kv => P (snd kv)) d ->
    Forall (fun kv => P (snd kv)) pairs ->
    let d' := fold_left (fun d kv => Dict.set (fst kv) (snd kv) d) pairs d in
    NoDup (map fst d') /\ Forall (fun kv => P (snd kv)) d'.
Proof.
  induction pairs as [|[k x] pairs IH]; intros d Hn Hd Hp; [now split|].
  apply Forall_cons_iff in Hp as [Hx Hp]. cbn [fold_left fst snd].
  apply IH; [now apply dict_set_NoDup | now apply dict_set_values | exact Hp].
Qed.

Lemma well_formed_array (items : list Json.value) :
  Dict.well_formed (Json.Array items) <-> Forall Dict.well_formed items.
Proof.
  cbn [Dict.well_formed]. induction items as [|x items IH]; cbn [fold_right].
  - split; constructor.
  - rewrite IH. split.
    + intros [H1 H2]. now constructor.
    + intros H. now apply Forall_cons_iff in H.
Qed.

Lemma well_formed_object (members : list (str * Json.value)) :
  Dict.well_formed (Json.Object members)
  <-> NoDup (map fst members) /\ Forall (fun kv => Dict.well_formed (snd kv)) members.
Proof.
  cbn [Dict.well_formed].
  assert (H : fold_right (fun kv P => Dict.well_formed (snd kv) /\ P) True members
              <-> Forall (fun kv => Dict.well_formed (snd kv)) members).
  { induction members as [|kv members IH]; cbn [fold_right].
    - split; constructor.
    - rewrite IH. split.
      + intros [H1 H2]. now constructor.
      + intros H. now apply Forall_cons_iff in H. }
  now rewrite H.
Qed.

(** What [json.load] builds is a value with proper dictionaries. *)
Lemma normalize_well_formed (v : Json.value) : Dict.well_formed (Dict.normalize v).
Proof.
  induction v as [|b|z|s|items IH|members IH] using value_ind'; try exact I.
  - cbn [Dict.normalize]. apply well_formed_array.
    induction IH; constructor; assumption.
  - cbn [Dict.normalize]. apply well_formed_object. unfold Dict.of_pairs.
    apply (of_pairs_invariant Dict.well_formed); [constructor | constructor |].
    induction IH; constructor; assumption.
Qed.

(** A value with proper dictionaries is built as it is. *)
Lemma normalize_id (v : Json.value) : Dict.well_formed v -> Dict.normalize v = v.
Proof.
  induction v as [|b|z|s|items IH|members IH] using value_ind'; intros H; try reflexivity.
  - apply well_formed_array in H. cbn [Dict.normalize]. f_equal.
    induction IH as [|x xs Hx _ IHl]; [reflexivity|].
    apply Forall_cons_iff in H as [H1 H2]. cbn [map]. now rewrite Hx, IHl.
  - apply well_formed_object in H as [Hn H]. cbn [Dict.normalize]. f_equal.
    assert (E : map (fun kv => (fst kv, Dict.normalize (snd kv))) members = members).
    { clear Hn. induction IH as [|[k x] ms Hx _ IHl]; [reflexivity|].
      apply Forall_cons_iff in H as [H1 H2]. cbn [map fst snd] in *.
      now rewrite Hx, IHl. }
    rewrite E. unfold Dict.of_pairs. now rewrite of_pairs_from.
Qed.

Lemma dict_loads_pretty_dumps (v : Json.value) :
  Dict.well_formed v -> Dict.loads (Pretty.dumps v) = Some v.
Proof.
  intros H. unfold Dict.loads. rewrite loads_pretty_dumps. cbn [option_map].
  now rewrite normalize_id.
Qed.

Lemma dict_loads_well_formed (s : str) (v : Json.value) :
  Dict.loads s = Some v -> Dict.well_formed v.
Proof.
  unfold Dict.loads. destruct (Json.loads s) as [w|]; [|discriminate].
  intros H. injection H as <-. apply normalize_well_formed.
Qed.

(** ** The forum file *)

Lemma forum_record_well_formed (name problem_description solution : Json.value) :
  Dict.well_formed name -> Dict.well_formed problem_description ->
  Dict.well_formed solution ->
  Dict.well_formed (forum_record name problem_description solution).
Proof.
  intros H1 H2 H3. apply well_formed_object. split.
  - cbn. repeat constructor; cbn; intuition discriminate.
  - repeat constructor; assumption.
Qed.

Lemma load_forum_data_well_formed (fs : filesystem) (v : Json.value) :
  load_forum_data fs = Some v -> Dict.well_formed v.
Proof.
  unfold load_forum_data. destruct (isfile fs FORUM_FILE_PATH).
  - destruct (fs FORUM_FILE_PATH) as [[pages|content]|]; try discriminate.
    apply dict_loads_well_formed.
  - intros H. injection H as <-. exact I.
Qed.

Lemma load_forum_data_written (fs : filesystem) (v : Json.value) :
  Dict.well_formed v ->
  load_forum_data (write_text fs FORUM_FILE_PATH (Pretty.dumps v)) = Some v.
Proof.
  intros H. unfold load_forum_data, isfile, write_text.
  rewrite String.eqb_refl. now apply dict_loads_pretty_dumps.
Qed.

(** What one call of [save_forum_data] does on a usable forum file. *)
Lemma save_forum_data_run (name problem_description solution : Json.value)
  (fs : filesystem) (old : list Json.value) :
  load_forum_data fs = Some (Json.Array old) ->
  Dict.well_formed name -> Dict.well_formed problem_description ->
  Dict.well_formed solution ->
  let record := forum_record name problem_description solution in
  let fs' := write_text fs FORUM_FILE_PATH (Pretty.dumps (Json.Array (old ++ [record]))) in
  save_forum_data name problem_description solution fs = (Some tt, fs')
  /\ load_forum_data fs' = Some (Json.Array (old ++ [record])).
Proof.
  intros Hl H1 H2 H3 record fs'. split.
  - unfold save_forum_data. now rewrite Hl.
  - apply load_forum_data_written, well_formed_array, Forall_app. split.
    + apply well_formed_array. exact (load_forum_data_well_formed fs _ Hl).
    + constructor; [|constructor]. now apply forum_record_well_formed.
Qed.

(** X17: on a forum file that holds a list (or on no forum file, which counts
    as the empty list), [save_forum_data] returns, the forum file then loads
    as the list it held followed by the new record, and no other file is
    touched. *)
Theorem save_forum_data_appends (name problem_description solution : Json.value)
  (fs : filesystem) (old : list Json.value) :
  load_forum_data fs = Some (Json.Array old) ->
  Dict.well_formed name -> Dict.well_formed problem_description ->
  Dict.well_formed solution ->
  exists fs',
    save_forum_data name problem_description solution fs = (Some tt, fs')
    /\ load_forum_data fs'
       = Some (Json.Array (old ++ [forum_record name problem_description solution]))
    /\ (forall path, path <> FORUM_FILE_PATH -> fs' path = fs path).
Proof.
  intros Hl H1 H2 H3.
  destruct (save_forum_data_run name problem_description solution fs old Hl H1 H2 H3)
    as [Hs Hl'].
  eexists. split; [exact Hs|]. split; [exact Hl'|].
  intros path Hp. unfold write_text.
  now rewrite (proj2 (String.eqb_neq path FORUM_FILE_PATH) Hp).
Qed.

Lemma save_forum_data_appends_witness :
  load_forum_data no_files = Some (Json.Array [])
  /\ exists fs',
       save_forum_data (Json.Str (py "Ada")) (Json.Str (py "No results"))
                       (Json.Str (py "Rebuild the index")) no_files = (Some tt, fs')
       /\ load_forum_data fs'
          = Some (Json.Array [ forum_record (Json.Str (py "Ada"))
                                            (Json.Str (py "No results"))
                                            (Json.Str (py "Rebuild the index")) ]).
Proof.
  split; [reflexivity|].
  destruct (save_forum_data_appends (Json.Str (py "Ada")) (Json.Str (py "No results"))
              (Json.Str (py "Rebuild the index")) no_files [] eq_refl I I I)
    as [fs' [Hs [Hl _]]].
  exists fs'. split; [exact Hs | exact Hl].
Defined.

(** X18: submissions accumulate: starting from the list the forum file holds,
    saving submissions one after the other returns every time, and the forum
    file ends up holding that list followed by the records of the
    submissions, in the order they were saved. *)
Theorem save_submissions_accumulate (subs : list submission) :
  forall (fs : filesystem) (old : list Json.value),
    load_forum_data fs = Some (Json.Array old) ->
    Forall submission_ok subs ->
    exists fs',
      save_submissions subs fs = (Some tt, fs')
      /\ load_forum_data fs' = Some (Json.Array (old ++ map submission_record subs)).
Proof.
  induction subs as [|s subs IH]; intros fs old Hl Hok.
  - exists fs. cbn. now rewrite app_nil_r.
  - apply Forall_cons_iff in Hok as [[H1 [H2 H3]] Hok].
    destruct (save_forum_data_run _ _ _ fs old Hl H1 H2 H3) as [Hs Hl'].
    cbn [save_submissions]. rewrite Hs.
    destruct (IH _ _ Hl' Hok) as [fs' [Hs' Hl'']].
    exists fs'. split; [exact Hs'|].
    rewrite Hl'', <- app_assoc. reflexivity.
Qed.

Lemma save_submissions_accumulate_witness :
  load_forum_data no_files = Some (Json.Array [])
  /\ Forall submission_ok [first_submission; first_submission]
  /\ exists fs',
       save_submissions [first_submission; first_submission] no_files = (Some tt, fs')
       /\ load_forum_data fs'
          = Some (Json.Array [ submission_record first_submission;
                               submission_record first_submission ]).
Proof.
  assert (Hok : Forall submission_ok [first_submission; first_submission]).
  { repeat constructor. }
  split; [reflexivity|]. split; [exact Hok|].
  exact (save_submissions_accumulate [first_submission; first_submission]
           no_files [] eq_refl Hok).
Defined.

(** X19: [save_forum_data] does not write over a forum file it cannot use: on
    a blank file, and on a file whose value is no list, the call raises and
    every file stays as it was. *)
Theorem save_forum_data_keeps_unusable_file
  (name problem_description solution : Json.value) (fs : filesystem) :
  forum_file_unusable fs ->
  save_forum_data name problem_description solution fs = (None, fs).
Proof.
  intros [[content [Hf Hb]]|[v [Hl Hv]]]; unfold save_forum_data.
  - unfold load_forum_data, isfile, Dict.loads. rewrite Hf.
    now rewrite (loads_blank content Hb).
  - rewrite Hl. destruct v; try reflexivity. now elim (Hv items).
Qed.

Lemma save_forum_data_keeps_unusable_file_witness :
  forum_file_unusable blank_forum_file
  /\ save_forum_data (Json.Str (py "Ada")) Json.Null Json.Null blank_forum_file
     = (None, blank_forum_file).
Proof.
  assert (H : forum_file_unusable blank_forum_file).
  { left. exists (py "  "). split; reflexivity. }
  split; [exact H|].
  exact (save_forum_data_keeps_unusable_file (Json.Str (py "Ada")) Json.Null Json.Null
           blank_forum_file H).
Defined.

(** X20: a request that is no dictionary or lacks one of the fields [name],
    [problem-description] and [solution] makes [submit_problem] raise before
    anything is read or written. *)
Theorem submit_problem_missing_field (data : Json.value) (fs : filesystem) :
  lacks_field data -> submit_problem data fs = (None, fs).
Proof.
  intros [H|[H|H]]; unfold submit_problem; rewrite H.
  - reflexivity.
  - now destruct (subscript data (py "name")).
  - now destruct (subscript data (py "name")),
                 (subscript data (py "problem-description")).
Qed.

Lemma submit_problem_missing_field_witness :
  lacks_field request_without_solution
  /\ submit_problem request_without_solution no_files = (None, no_files).
Proof.
  assert (H : lacks_field request_without_solution).
  { right. right. reflexivity. }
  split; [exact H|].
  exact (submit_problem_missing_field request_without_solution no_files H).
Defined.

(** X21: a request with the three fields, on a usable forum file, is answered
    with the success message, and the forum file then holds one more record,
    made of the three values of the request. *)
Theorem submit_problem_saves (data : Json.value) (fs : filesystem)
  (old : list Json.value) (name problem_description solution : Json.value) :
  Dict.well_formed data ->
  subscript data (py "name") = Some name ->
  subscript data (py "problem-description") = Some problem_description ->
  subscript data (py "solution") = Some solution ->
  load_forum_data fs = Some (Json.Array old) ->
  exists fs',
    submit_problem data fs
    = (Some (Json.Object [ (py "message", Json.Str (py "Data submitted successfully")) ]),
       fs')
    /\ load_forum_data fs'
       = Some (Json.Array (old ++ [forum_record name problem_description solution])).
Proof.
  intros Hw Hn Hp Hs Hl.
  assert (Hget : forall key v, subscript data key = Some v -> Dict.well_formed v).
  { intros key v H. destruct data as [| | | | |members]; try discriminate.
    apply well_formed_object in Hw as [_ Hw]. cbn [subscript] in H.
    clear -Hw H. induction Hw as [|[k x] ms Hx _ IH]; [discriminate|].
    cbn [Json.dict_get] in H. destruct (Json.dict_get key ms) as [later|].
    - injection H as <-. now apply IH.
    - destruct (Json.str_eqb k key); [|discriminate]. now injection H as <-. }
  destruct (save_forum_data_run name problem_description solution fs old Hl
              (Hget _ _ Hn) (Hget _ _ Hp) (Hget _ _ Hs)) as [Hsave Hl'].
  eexists. unfold submit_problem. rewrite Hn, Hp, Hs, Hsave.
  split; [reflexivity | exact Hl'].
Qed.

Lemma submit_problem_saves_witness :
  exists fs',
    submit_problem full_request no_files
    = (Some (Json.Object [ (py "message", Json.Str (py "Data submitted successfully")) ]),
       fs')
    /\ load_forum_data fs'
       = Some (Json.Array [ forum_record (Json.Str (py "Ada"))
                                          (Json.Str (py "No results"))
                                          (Json.Str (py "Rebuild the index")) ]).
Proof.
  assert (Hw : Dict.well_formed full_request).
  { apply well_formed_object. split.
    - cbn. repeat constructor; cbn; intuition discriminate.
    - repeat constructor. }
  exact (submit_problem_saves full_request no_files [] _ _ _ Hw
           eq_refl eq_refl eq_refl eq_refl).
Defined.
